(** * Retention policy of the Fleet Helm chart index

    A shallow embedding of the two maintenance scripts of the repository,
    [.github/scripts/manage-fleet-charts.py] and
    [.github/scripts/remove-rcs-from-index.py], and the properties of the
    retention rule they implement.

    Conventions of the embedding:
    - a Python [str] is a [string]; the version strings of the index are
      ASCII, and on the 8-bit characters of [string] the regular-expression
      class [\d] is exactly ['0'..'9'];
    - a [datetime] is an integer number of microseconds since the epoch
      (UTC), a [timedelta] an integer number of microseconds;
    - a [dict] from version strings to datetimes is a [gmap string Z], a
      [set] of version strings a [gset string];
    - the order in which Python iterates over a [set] of strings is not
      fixed by the language (string hashing is randomised per process); it
      is a parameter of the embedding, see [set_iteration]. *)

From Stdlib Require Import ZArith String Ascii List Sorted.
From stdpp Require Import base gmap strings list sorting fin_maps.

Local Open Scope string_scope.
Local Open Scope Z_scope.

(** ** Strings and the two regular expressions *)

Module Str.

(** [needle in hay] for Python strings. *)
Fixpoint contains (needle hay : string) : bool :=
  String.prefix needle hay ||
  match hay with
  | EmptyString => false
  | String _ hay' => contains needle hay'
  end.

(** [s.split('-')[0]]: the characters before the first ['-']. *)
Fixpoint split_dash_0 (s : string) : string :=
  match s with
  | EmptyString => EmptyString
  | String c s' =>
      if Ascii.eqb c "-" then EmptyString else String c (split_dash_0 s')
  end.

(** The class [\d]. *)
Definition is_digit (c : ascii) : bool :=
  (48 <=? nat_of_ascii c)%nat && (nat_of_ascii c <=? 57)%nat.

(** [\d*] at the head of [s], greedy: the digits and what follows them. *)
Fixpoint span_digits (s : string) : string * string :=
  match s with
  | EmptyString => (EmptyString, EmptyString)
  | String c s' =>
      if is_digit c
      then let '(d, r) := span_digits s' in (String c d, r)
      else (EmptyString, s)
  end.

(** [\d+] at the head of [s]: [None] when [s] does not start with a digit. *)
Definition digits1 (s : string) : option (string * string) :=
  match span_digits s with
  | (EmptyString, _) => None
  | (d, r) => Some (d, r)
  end.

(** A literal ['.'] at the head of [s]. *)
Definition dot (s : string) : option string :=
  match s with
  | String c s' => if Ascii.eqb c "." then Some s' else None
  | EmptyString => None
  end.

(** [re.match(r'^(\d+\.\d+\.\d+)', s)]: group 1 of the match, [None]
    when there is no match.  Each [\d+] is greedy and is followed by a
    character that is not a digit, so the first attempt of the
    backtracking matcher is the only one that can succeed. *)
Definition match_base (s : string) : option string :=
  match digits1 s with
  | None => None
  | Some (d1, r1) =>
      match dot r1 with
      | None => None
      | Some r1' =>
          match digits1 r1' with
          | None => None
          | Some (d2, r2) =>
              match dot r2 with
              | None => None
              | Some r2' =>
                  match digits1 r2' with
                  | None => None
                  | Some (d3, _) => Some (d1 ++ "." ++ d2 ++ "." ++ d3)
                  end
              end
          end
      end
  end.

(** [DEV_VERSION_PATTERN.search(s)] for
    [DEV_VERSION_PATTERN = re.compile(r"(rc|beta|alpha)")], as a bool. *)
Definition DEV_VERSION_PATTERN_search (s : string) : bool :=
  contains "rc" s || contains "beta" s || contains "alpha" s.

(** [",".join(l)]. *)
Definition join_comma (l : list string) : string := String.concat "," l.

(** [c.lower()] for an ASCII character.  A character outside ASCII is left
    as it is: the scripts only search the lowered string for ASCII strings,
    and no such character is part of one. *)
Definition lower_char (c : ascii) : ascii :=
  let n := nat_of_ascii c in
  if ((65 <=? n) && (n <=? 90))%nat then ascii_of_nat (n + 32) else c.

(** [s.lower()]. *)
Fixpoint lower (s : string) : string :=
  match s with
  | EmptyString => EmptyString
  | String c s' => String (lower_char c) (lower s')
  end.

(** [s.lstrip("v")]: [s] without its leading ['v'] characters. *)
Fixpoint lstrip_v (s : string) : string :=
  match s with
  | String c s' => if Ascii.eqb c "v" then lstrip_v s' else s
  | EmptyString => EmptyString
  end.

(** [s.split(sep)] for a separator of one character; the list is never
    empty. *)
Fixpoint split_on (sep : ascii) (s : string) : list string :=
  match s with
  | EmptyString => [EmptyString]
  | String c s' =>
      if Ascii.eqb c sep then EmptyString :: split_on sep s'
      else match split_on sep s' with
           | part :: parts => String c part :: parts
           | [] => [String c EmptyString]
           end
  end.

(** [sep.join(l)]. *)
Definition join (sep : string) (l : list string) : string := String.concat sep l.

End Str.

(** ** Shared data: datetimes, index entries, set iteration *)

Abbreviation datetime := Z.
Abbreviation timedelta := Z.

(** [timedelta(days=n)] and [timedelta(weeks=n)], in microseconds. *)
Definition timedelta_days (n : Z) : timedelta := n * 86400 * 1000000.
Definition timedelta_weeks (n : Z) : timedelta := timedelta_days (7 * n).

(** An entry of a chart's list in [index.yaml], the dict the scripts call
    [version_dict] or [version].  [version] is always present in an index
    written by helm; [appVersion] is optional and read with
    [.get('appVersion', '')]; [created] holds the instant that
    [parse_created_date] reads from the entry's [created] field. *)
Record version_dict : Type := VersionDict {
  version : string;
  appVersion : option string;
  created : datetime
}.

#[global] Instance version_dict_eq_dec : EqDecision version_dict.
Proof. solve_decision. Defined.

(** The order in which the interpreter iterates over a set of strings:
    some enumeration of the members, each once. *)
Record set_iteration : Type := SetIteration {
  iter_set :> gset string → list string;
  iter_set_perm : ∀ X : gset string, iter_set X ≡ₚ elements X
}.

(** One such order, used to run the model on concrete inputs. *)
Definition elements_order : set_iteration :=
  {| iter_set := elements; iter_set_perm := λ X, reflexivity (elements X) |}.

(** [sorted(l, key=key, reverse=True)]: a stable sort, larger keys first;
    elements with equal keys stay in the order they have in [l]. *)
Fixpoint insert_reverse {A} (key : A → Z) (x : A) (l : list A) : list A :=
  match l with
  | [] => [x]
  | y :: r => if key y <=? key x then x :: y :: r else y :: insert_reverse key x r
  end.

Definition sorted_reverse {A} (key : A → Z) (l : list A) : list A :=
  foldr (insert_reverse key) [] l.

(** [max(l, key=key)] on a non-empty list [x :: l]: the first element whose
    key is largest. *)
Definition max_by {A} (key : A → Z) (x : A) (l : list A) : A :=
  fold_left (λ best y, if key best <? key y then y else best) l x.

(** ** manage-fleet-charts.py *)

Module ManageFleetCharts.

Definition CHARTS : list string := ["fleet"; "fleet-crd"; "fleet-agent"].
Definition DEV_VERSION_MAX_AGE_DAYS : Z := 14.

Definition extract_base_version (version_string : string) : string :=
  match Str.match_base version_string with
  | Some group1 => group1
  | None => version_string
  end.

Definition is_dev_version (d : version_dict) : bool :=
  Str.DEV_VERSION_PATTERN_search (version d ++ default "" (appVersion d)).

Definition parse_created_date (d : version_dict) : datetime := created d.

(** The state of the walk over [dev_sorted]. *)
Record walk_state : Type := WalkState {
  kept_dev : gset string;
  dev_bases_seen : gset string
}.

(** The state of the loop over [missing]: the two counters, and the files
    written under [charts_dir] so far, as (chart, version) pairs. *)
Record sync_state : Type := SyncState {
  added : nat;
  failed : nat;
  downloaded : list (string * string)
}.

(** How a run of [sync_releases] ends: it returns early because nothing is
    missing; [update_index] raises; or it runs to the end, with the two
    counters, the files handed to helm, and the content of
    [synced_versions.txt] when the file is written. *)
Inductive sync_result : Type :=
| AlreadyInIndex
| IndexUpdateFailed
| SyncDone (added failed : nat) (indexed : list (string * string))
    (synced_versions_txt : option string).

(** The state of the loop of [cleanup_old_versions]. *)
Record cleanup_state : Type := CleanupState {
  entries : list (string * list version_dict);
  removed_versions : list string
}.

(** An element of the JSON list that the releases API returns, with the
    two fields that [fetch_releases] reads; [published_at] holds the instant
    that [datetime.fromisoformat] reads from the field. *)
Record release : Type := Release {
  tag_name : string;
  published_at : datetime
}.

(** The test of [fetch_releases] on a tag. *)
Definition tag_included (tag : string) : bool :=
  negb (Str.contains "experiment" (Str.lower tag))
  && negb (Str.contains "hotfix" (Str.lower tag)).

(** [fetch_releases], from the list [response.json()] of a successful
    request: the loop that fills the dict [releases]. *)
Definition fetch_releases (response : list release) : gmap string datetime :=
  fold_left
    (λ releases r,
       let tag := tag_name r in
       if tag_included tag
       then <[Str.lstrip_v tag := published_at r]> releases
       else releases)
    response ∅.

(** [d.get(key, [])] on the mapping [entries] of the index. *)
Fixpoint get_chart (key : string) (data_entries : list (string * list version_dict))
  : list version_dict :=
  match data_entries with
  | [] => []
  | (chart, versions) :: rest =>
      if String.eqb chart key then versions else get_chart key rest
  end.

(** [get_existing_versions], from the mapping [index.get("entries", {})]. *)
Definition get_existing_versions (data_entries : list (string * list version_dict))
  : gset string :=
  list_to_set (version <$> get_chart "fleet" data_entries).

Section policy.
(** The instant at which the module is loaded, [datetime.now(timezone.utc)]. *)
Variable now : datetime.
Variable order : set_iteration.

Definition CUTOFF_DATE : datetime := now - timedelta_weeks 2.

(** [all_versions[v]]; every lookup of the function is at a key of the
    dict (lemma [dev_sorted_keys]). *)
Definition published_of (all_versions : gmap string datetime) (v : string)
  : datetime :=
  default 0 (all_versions !! v).

Definition stable_versions (all_versions : gmap string datetime) : gset string :=
  filter (λ v, Str.DEV_VERSION_PATTERN_search v = false) (dom all_versions).

Definition dev_versions (all_versions : gmap string datetime) : gset string :=
  filter (λ v, Str.DEV_VERSION_PATTERN_search v = true) (dom all_versions).

(** [extract_base_version(v.split('-')[0])], the base the policy uses. *)
Definition base_of (v : string) : string :=
  extract_base_version (Str.split_dash_0 v).

Definition stable_bases (all_versions : gmap string datetime) : gset string :=
  set_map base_of (stable_versions all_versions).

Definition dev_sorted (all_versions : gmap string datetime) : list string :=
  sorted_reverse (published_of all_versions) (order (dev_versions all_versions)).

(** The body of the [for version in dev_sorted] loop. *)
Definition walk_step (all_versions : gmap string datetime)
    (st : walk_state) (version : string) : walk_state :=
  let published := published_of all_versions version in
  let base := base_of version in
  let is_old := published <? CUTOFF_DATE in
  if negb is_old then
    {| kept_dev := kept_dev st ∪ {[version]};
       dev_bases_seen := dev_bases_seen st ∪ {[base]} |}
  else if bool_decide (base ∉ stable_bases all_versions)
          && bool_decide (base ∉ dev_bases_seen st) then
    {| kept_dev := kept_dev st ∪ {[version]};
       dev_bases_seen := dev_bases_seen st ∪ {[base]} |}
  else st.

Definition walk (all_versions : gmap string datetime)
    (l : list string) (st : walk_state) : walk_state :=
  fold_left (walk_step all_versions) l st.

Definition get_versions_to_keep (all_versions : gmap string datetime)
  : gset string :=
  let st := walk all_versions (dev_sorted all_versions)
              {| kept_dev := ∅; dev_bases_seen := ∅ |} in
  stable_versions all_versions ∪ kept_dev st.

(** *** [sync_releases] *)

(** [combined]: the releases of the feed, and every version of the index
    that the feed does not have, dated one year before the cutoff. *)
Definition combine (all_releases : gmap string datetime) (existing : gset string)
  : gmap string datetime :=
  fold_left
    (λ combined v,
       if bool_decide (v ∈ dom combined) then combined
       else <[v := CUTOFF_DATE - timedelta_days 365]> combined)
    (order existing) all_releases.

(** [missing]: the list comprehension over the set [versions_to_keep]. *)
Definition missing_of (all_releases : gmap string datetime) (existing : gset string)
  : list (string * datetime) :=
  let combined := combine all_releases existing in
  let versions_to_keep := get_versions_to_keep combined in
  (λ v, (v, published_of all_releases v)) <$>
    filter (λ v, v ∈ dom all_releases ∧ v ∉ existing) (order versions_to_keep).

(** The inner [for chart in CHARTS: download_chart(chart, version, charts_dir)]
    inside the [try]: [download_ok chart version] tells whether that download
    returns or raises; a file that was written stays in [charts_dir], and the
    first download that raises ends the loop. *)
Fixpoint download_charts (download_ok : string → string → bool)
    (charts : list string) (version : string) (charts_dir : list (string * string))
  : bool * list (string * string) :=
  match charts with
  | [] => (true, charts_dir)
  | chart :: charts' =>
      if download_ok chart version
      then download_charts download_ok charts' version (charts_dir ++ [(chart, version)])
      else (false, charts_dir)
  end.

(** The body of [for version, _ in missing]. *)
Definition sync_step (download_ok : string → string → bool)
    (st : sync_state) (item : string * datetime) : sync_state :=
  let '(ok, dir) := download_charts download_ok CHARTS item.1 (downloaded st) in
  if ok
  then {| added := S (added st); failed := failed st; downloaded := dir |}
  else {| added := added st; failed := S (failed st); downloaded := dir |}.

(** [sync_releases], from the two values it reads ([fetch_releases()] and
    [get_existing_versions()]) and the behaviour of the two external
    collaborators: the downloads and [update_index] ([helm_ok] tells whether
    helm returns status 0; otherwise [subprocess.run(check=True)] raises and
    the exception leaves the function). *)
Definition sync_releases (all_releases : gmap string datetime) (existing : gset string)
    (download_ok : string → string → bool) (helm_ok : bool) : sync_result :=
  let missing := missing_of all_releases existing in
  match missing with
  | [] => AlreadyInIndex
  | _ =>
      let st := fold_left (sync_step download_ok) missing
                  {| added := 0; failed := 0; downloaded := [] |} in
      if (0 <? added st)%nat then
        if helm_ok then
          SyncDone (added st) (failed st) (downloaded st)
            (Some (Str.join_comma ((take (added st) missing).*1)))
        else IndexUpdateFailed
      else SyncDone (added st) (failed st) [] None
  end.

(** *** [cleanup_old_versions] *)

(** [{v.get('version'): parse_created_date(v) for v in versions}]; of two
    entries with the same version the later one gives the date. *)
Definition version_dates (versions : list version_dict) : gmap string datetime :=
  fold_left (λ m v, <[version v := parse_created_date v]> m) versions ∅.

(** The body of [for chart in list(data['entries'])] on the list of one
    chart: [kept_versions], and the versions appended to [removed_versions]. *)
Definition cleanup_chart (versions : list version_dict)
  : list version_dict * list string :=
  let versions_to_keep := get_versions_to_keep (version_dates versions) in
  let kept_versions := filter (λ v, version v ∈ versions_to_keep) versions in
  (kept_versions, version <$> filter (λ v, v ∉ kept_versions) versions).

Definition cleanup_step (st : cleanup_state) (item : string * list version_dict)
  : cleanup_state :=
  let '(kept_versions, removed) := cleanup_chart item.2 in
  {| entries :=
       match kept_versions with
       | [] => entries st
       | _ => entries st ++ [(item.1, kept_versions)]
       end;
     removed_versions := removed_versions st ++ removed |}.

(** The loop of [cleanup_old_versions] over [data['entries']], a mapping
    in file order. *)
Definition cleanup_loop (data_entries : list (string * list version_dict))
  : cleanup_state :=
  fold_left cleanup_step data_entries {| entries := []; removed_versions := [] |}.

(** [cleanup_old_versions]: the entries written back to [index.yaml], and
    the content of [removed_versions.txt] when the file is written. *)
Definition cleanup_old_versions (data_entries : list (string * list version_dict))
  : list (string * list version_dict) * option string :=
  let st := cleanup_loop data_entries in
  (entries st,
   match removed_versions st with
   | [] => None
   | l => Some (Str.join_comma l)
   end).
End policy.

End ManageFleetCharts.

(** ** remove-rcs-from-index.py *)

Module RemoveRcsFromIndex.

Definition extract_base_version (version_string : string) : string :=
  match Str.match_base version_string with
  | Some group1 => group1
  | None => version_string
  end.

Definition is_dev_version (d : version_dict) : bool :=
  Str.DEV_VERSION_PATTERN_search (version d ++ default "" (appVersion d)).

Definition parse_created_date (d : version_dict) : datetime := created d.

Definition is_old (d : version_dict) (cutoff_date : datetime) : bool :=
  parse_created_date d <? cutoff_date.

Section retention.
(** [datetime.now()] when the script runs. *)
Variable now : datetime.

Definition AGE_LIMIT : timedelta := timedelta_weeks 2.
Definition cutoff_date : datetime := now - AGE_LIMIT.

(** [kept_versions] of the body of [for chart in list(data['entries'])],
    for the list [versions] of one chart. *)
Definition kept_versions (versions : list version_dict) : list version_dict :=
  let final_versions := filter (λ v, is_dev_version v = false) versions in
  let dev_versions := filter (λ v, is_dev_version v = true) versions in
  match final_versions with
  | _ :: _ =>
      let final_base_versions : gset string :=
        list_to_set ((λ v, extract_base_version (version v)) <$> final_versions) in
      filter
        (λ v, (is_dev_version v = false) ∨
              ((extract_base_version (version v) ∉ final_base_versions)
               ∧ (is_old v cutoff_date = false)))
        versions
  | [] =>
      let recent_dev := filter (λ v, is_old v cutoff_date = false) dev_versions in
      let old_dev := filter (λ v, is_old v cutoff_date = true) dev_versions in
      match old_dev with
      | first :: rest =>
          let latest_old_dev := max_by parse_created_date first rest in
          filter (λ v, v ∈ recent_dev ∨ v = latest_old_dev) versions
      | [] => recent_dev
      end
  end.

(** The loop over the charts; a chart whose list becomes empty is deleted. *)
Definition cleanup (data_entries : list (string * list version_dict))
  : list (string * list version_dict) :=
  filter (λ item, item.2 ≠ [])
    ((λ item, (item.1, kept_versions item.2)) <$> data_entries).
End retention.

End RemoveRcsFromIndex.

(** ** sync-fleet-releases.py *)

Module SyncFleetReleases.

Definition DEV_VERSION_MAX_AGE_DAYS : Z := 14.

(** [any(tag in version.lower() for tag in ['-rc.', '-beta.', '-alpha.'])]. *)
Definition is_dev (version : string) : bool :=
  existsb (λ tag, Str.contains tag (Str.lower version))
    ["-rc."; "-beta."; "-alpha."].

(** [should_include_version]; [now] is [datetime.now(timezone.utc)] at the
    call. *)
Definition should_include_version (now : datetime) (version : string)
    (published_date : datetime) (existing : gset string) : bool :=
  if bool_decide (version ∈ existing) then false
  else if negb (is_dev version) then true
  else
    let age := now - published_date in
    if timedelta_days DEV_VERSION_MAX_AGE_DAYS <? age then false
    else
      let parts := Str.split_on "." (Str.split_dash_0 version) in
      if (3 <=? length parts)%nat then
        let base_version := Str.join "." (take 3 parts) in
        bool_decide (base_version ∉ existing)
      else true.

(** [missing] of [main], from the list [all_releases.items()]. *)
Definition missing_of (now : datetime) (items : list (string * datetime))
    (existing : gset string) : list (string * datetime) :=
  filter (λ item, should_include_version now item.1 item.2 existing = true) items.

End SyncFleetReleases.

(** ** The vocabulary of the retention policy *)

(** The two classes of a version, as [get_versions_to_keep] tells them
    apart: by [DEV_VERSION_PATTERN.search] on the version string. *)
Inductive VersionClass : Type := Stable | Dev.

Definition class_of (v : string) : VersionClass :=
  if Str.DEV_VERSION_PATTERN_search v then Dev else Stable.

(** The age of a version of the catalog at the instant [now], and the age
    limit of a dev version. *)
Definition age (now : datetime) (catalog : gmap string datetime) (v : string)
  : timedelta :=
  now - ManageFleetCharts.published_of catalog v.

Definition max_dev_age : timedelta :=
  timedelta_days ManageFleetCharts.DEV_VERSION_MAX_AGE_DAYS.

(** [v] is a dev version of the catalog with base [B] whose age exceeds
    the limit. *)
Definition old_dev_of (now : datetime) (catalog : gmap string datetime)
    (B v : string) : Prop :=
  v ∈ dom catalog ∧ class_of v = Dev ∧ ManageFleetCharts.base_of v = B
  ∧ max_dev_age < age now catalog v.

(** The versions that the list of a chart holds. *)
Definition index_versions (versions : list version_dict) : gset string :=
  list_to_set (version <$> versions).

(** The versions of [missing] of which every chart of [CHARTS] was
    downloaded: the versions that a run of [sync_releases] adds. *)
Definition fully_downloaded (download_ok : string → string → bool)
    (v : string) : bool :=
  forallb (λ chart, download_ok chart v) ManageFleetCharts.CHARTS.

Definition versions_added (download_ok : string → string → bool)
    (missing : list (string * datetime)) : list string :=
  filter (λ v, fully_downloaded download_ok v = true) missing.*1.

(** A string that matches [\d+] as a whole. *)
Fixpoint only_digits (d : string) : bool :=
  match d with
  | EmptyString => false
  | String c EmptyString => Str.is_digit c
  | String c d' => Str.is_digit c && only_digits d'
  end.

(** No two old dev versions of one base have the same date. *)
Definition no_tied_old_devs (now : datetime) (catalog : gmap string datetime)
  : Prop :=
  ∀ B v w, old_dev_of now catalog B v → old_dev_of now catalog B w →
    ManageFleetCharts.published_of catalog v
    = ManageFleetCharts.published_of catalog w →
    v = w.

(** No version of the list is fully downloaded after one that is not. *)
Fixpoint failures_last (download_ok : string → string → bool)
    (vs : list string) : bool :=
  match vs with
  | [] => true
  | v :: vs' =>
      if fully_downloaded download_ok v then failures_last download_ok vs'
      else forallb (λ w, negb (fully_downloaded download_ok w)) vs'
  end.

(** The date that [sync_releases] gives to a version of the index that the
    feed does not have. *)
Definition index_only_date (now : datetime) : datetime :=
  ManageFleetCharts.CUTOFF_DATE now - timedelta_days 365.

(** The catalog restricted to a set of versions. *)
Definition restrict (keep : gset string) (catalog : gmap string datetime)
  : gmap string datetime :=
  filter (λ kv, kv.1 ∈ keep) catalog.

(** A string made of digits only, and a string that does not start with a
    digit. *)
Definition all_digits (d : string) : Prop :=
  Str.span_digits d = (d, EmptyString).

Definition no_digit_head (r : string) : Prop :=
  match r with
  | EmptyString => True
  | String c _ => Str.is_digit c = false
  end.

(** ** Concrete inputs *)

(** An instant (day 20000 after the epoch) and the instant [n] days
    before it. *)
Definition example_now : datetime := timedelta_days 20000.
Definition days_ago (n : Z) : datetime := example_now - timedelta_days n.

(** Another iteration order: the reverse of [elements_order]. *)
Definition reverse_order : set_iteration :=
  {| iter_set := λ X, reverse (elements X);
     iter_set_perm := λ X, reverse_Permutation (elements X) |}.

(** The files that a run of the download loop leaves for one version: the
    charts of [CHARTS] up to the first one whose download fails. *)
Fixpoint downloaded_prefix (download_ok : string → string → bool)
    (charts : list string) (v : string) : list (string * string) :=
  match charts with
  | [] => []
  | chart :: charts' =>
      if download_ok chart v
      then (chart, v) :: downloaded_prefix download_ok charts' v
      else []
  end.

(** Two dev versions of one base with the same date, 30 days before the
    instant [now]. *)
Definition tied_catalog (now : datetime) : gmap string datetime :=
  {[ "1.3.0-rc1" := now - timedelta_days 30;
     "1.3.0-rc2" := now - timedelta_days 30 ]}.


(** The four scenarios of the policy: an old dev version of a released
    base; two old dev versions of an unreleased base; a recent dev version;
    an old and a recent dev version of an unreleased base. *)
Definition scenario_A : gmap string datetime :=
  {[ "1.2.3" := days_ago 0; "1.2.3-rc1" := days_ago 30 ]}.
Definition scenario_B : gmap string datetime :=
  {[ "1.3.0-rc1" := days_ago 30; "1.3.0-rc2" := days_ago 20 ]}.
Definition scenario_C : gmap string datetime :=
  {[ "1.4.0-rc1" := days_ago 1 ]}.
Definition scenario_D : gmap string datetime :=
  {[ "1.5.0-beta1" := days_ago 30; "1.5.0-beta2" := days_ago 1 ]}.

(** Two old dev versions whose part before the ['-'] has two components. *)
Definition two_component_catalog : gmap string datetime :=
  {[ "1.2-rc1" := days_ago 30; "1.2-rc2" := days_ago 20 ]}.

(** A chart with an old entry whose marker is in [appVersion] only, and an
    old release candidate of the same base published after it. *)
Definition app_marker_entry : version_dict :=
  {| version := "2.0.0"; appVersion := Some "2.0.0-rc1"; created := days_ago 30 |}.
Definition rc_entry : version_dict :=
  {| version := "2.0.0-rc2"; appVersion := Some "2.0.0-rc2"; created := days_ago 20 |}.
Definition app_marker_index : list (string * list version_dict) :=
  [("fleet", [app_marker_entry; rc_entry])].

(** A feed of two releases that the index does not have, where no chart of
    [1.1.0] can be downloaded. *)
Definition two_release_feed : gmap string datetime :=
  {[ "1.0.0" := days_ago 2; "1.1.0" := days_ago 1 ]}.
Definition fails_1_1_0 (chart version : string) : bool :=
  negb (String.eqb version "1.1.0").

(** The same feed when no chart of [1.0.0] can be downloaded. *)
Definition fails_1_0_0 (chart version : string) : bool :=
  negb (String.eqb version "1.0.0").

(** A chart with two old release candidates and no final version. *)
Definition dev_only_chart : list version_dict :=
  [ {| version := "1.3.0-rc1"; appVersion := Some "1.3.0-rc1";
       created := days_ago 30 |};
    {| version := "1.3.0-rc2"; appVersion := Some "1.3.0-rc2";
       created := days_ago 20 |} ].

(** A chart with a release created at the instant [now] and a dev version
    of a later base created 30 days before. *)
Definition released_and_old_dev (now : datetime) : list version_dict :=
  [ {| version := "1.0.0"; appVersion := Some "1.0.0"; created := now |};
    {| version := "1.1.0-rc1"; appVersion := Some "1.1.0-rc1";
       created := now - timedelta_days 30 |} ].

(** * Properties *)

(** ** The regular expression of the base version *)

Section strings.
Import Str.

Lemma span_digits_split_dash_0 (s : string) :
  span_digits (split_dash_0 s) = ((span_digits s).1, split_dash_0 (span_digits s).2).
Proof.
  induction s as [|c s IH]; [reflexivity|].
  cbn [split_dash_0 span_digits].
  destruct (Ascii.eqb c "-") eqn:Hc.
  - apply Ascii.eqb_eq in Hc. subst c. reflexivity.
  - cbn [span_digits]. destruct (is_digit c).
    + rewrite IH. destruct (span_digits s). reflexivity.
    + cbn [fst snd split_dash_0]. rewrite Hc. reflexivity.
Qed.

Lemma digits1_split_dash_0 (s : string) :
  digits1 (split_dash_0 s) = (λ dr, (dr.1, split_dash_0 dr.2)) <$> digits1 s.
Proof.
  unfold digits1. rewrite span_digits_split_dash_0.
  destruct (span_digits s) as [[|c d] r]; reflexivity.
Qed.

Lemma dot_split_dash_0 (s : string) :
  dot (split_dash_0 s) = split_dash_0 <$> dot s.
Proof.
  destruct s as [|c s]; [reflexivity|].
  cbn [split_dash_0 dot].
  destruct (Ascii.eqb c "-") eqn:Hc.
  - apply Ascii.eqb_eq in Hc. subst c. reflexivity.
  - cbn [dot]. destruct (Ascii.eqb c "."); reflexivity.
Qed.

(** The three-component prefix contains no ['-']: it is found in [s] exactly
    when it is found in [s.split('-')[0]], and it is the same. *)
Lemma match_base_split_dash_0 (s : string) :
  match_base (split_dash_0 s) = match_base s.
Proof.
  unfold match_base. rewrite digits1_split_dash_0.
  destruct (digits1 s) as [[d1 r1]|]; [|reflexivity]. cbn [fmap option_fmap option_map fst snd].
  rewrite dot_split_dash_0.
  destruct (dot r1) as [r1'|]; [|reflexivity]. cbn [fmap option_fmap option_map].
  rewrite digits1_split_dash_0.
  destruct (digits1 r1') as [[d2 r2]|]; [|reflexivity]. cbn [fmap option_fmap option_map fst snd].
  rewrite dot_split_dash_0.
  destruct (dot r2) as [r2'|]; [|reflexivity]. cbn [fmap option_fmap option_map].
  rewrite digits1_split_dash_0.
  destruct (digits1 r2') as [[d3 r3]|]; reflexivity.
Qed.

Lemma span_digits_spec (s : string) :
  all_digits (span_digits s).1 ∧ no_digit_head (span_digits s).2.
Proof.
  unfold all_digits.
  induction s as [|c s [IH1 IH2]]; [done|].
  cbn [span_digits]. destruct (is_digit c) eqn:Hc.
  - destruct (span_digits s) as [d r]. cbn [fst snd] in *.
    split; [|done]. cbn [span_digits]. by rewrite Hc, IH1.
  - done.
Qed.

Lemma append_empty_l (r : string) : "" ++ r = r.
Proof. reflexivity. Qed.

Lemma append_String_l (c : ascii) (d r : string) :
  String c d ++ r = String c (d ++ r).
Proof. reflexivity. Qed.

Lemma append_empty_r (d : string) : d ++ "" = d.
Proof. induction d as [|c d IH]; [done|]. by rewrite append_String_l, IH. Qed.

(** A string of digits followed by something that does not start with a
    digit is split there. *)
Lemma span_digits_app (d r : string) :
  all_digits d → no_digit_head r → span_digits (d ++ r) = (d, r).
Proof.
  unfold all_digits. intros Hd Hr.
  induction d as [|c d IH].
  - rewrite append_empty_l. destruct r as [|c r]; [done|].
    cbn [span_digits no_digit_head] in *. by rewrite Hr.
  - rewrite append_String_l. cbn [span_digits] in *. destruct (is_digit c); [|done].
    destruct (span_digits d) as [d' r'] eqn:Hspan.
    injection Hd as Hd' Hr'. subst d' r'.
    by rewrite IH.
Qed.

Lemma digits1_Some (s d r : string) :
  digits1 s = Some (d, r) → all_digits d ∧ no_digit_head r ∧ d ≠ EmptyString.
Proof.
  unfold digits1. pose proof (span_digits_spec s) as [H1 H2].
  destruct (span_digits s) as [[|c d'] r']; [done|].
  intros [= <- <-]. done.
Qed.

Lemma digits1_app (d r : string) :
  all_digits d → no_digit_head r → d ≠ EmptyString → digits1 (d ++ r) = Some (d, r).
Proof.
  intros Hd Hr Hne. unfold digits1. rewrite span_digits_app by done.
  by destruct d.
Qed.

Lemma dot_Some (s r : string) : dot s = Some r → s = String "." r.
Proof.
  destruct s as [|c s]; [done|]. cbn.
  destruct (Ascii.eqb c ".") eqn:Hc; [|done].
  apply Ascii.eqb_eq in Hc. by intros [= <-]; subst.
Qed.

(** The group of a match is itself matched, whole. *)
Lemma match_base_group (s g : string) :
  match_base s = Some g → match_base g = Some g.
Proof.
  unfold match_base at 1.
  destruct (digits1 s) as [[d1 r1]|] eqn:H1; [|done].
  destruct (dot r1) as [r1'|] eqn:D1; [|done].
  destruct (digits1 r1') as [[d2 r2]|] eqn:H2; [|done].
  destruct (dot r2) as [r2'|] eqn:D2; [|done].
  destruct (digits1 r2') as [[d3 r3]|] eqn:H3; [|done].
  intros [= <-].
  apply digits1_Some in H1 as (A1 & _ & N1).
  apply digits1_Some in H2 as (A2 & _ & N2).
  apply digits1_Some in H3 as (A3 & _ & N3).
  unfold match_base.
  rewrite (digits1_app d1 ("." ++ d2 ++ "." ++ d3)) by done.
  rewrite append_String_l, append_empty_l. cbn [dot Ascii.eqb Bool.eqb].
  rewrite (digits1_app d2 ("." ++ d3)) by done.
  rewrite append_String_l, append_empty_l. cbn [dot Ascii.eqb Bool.eqb].
  rewrite <- (append_empty_r d3) at 1.
  rewrite (digits1_app d3 "") by done.
  reflexivity.
Qed.

End strings.

(** ** [sorted(..., reverse=True)] *)

Section sorting.
Context {A : Type} (key : A → Z).

Lemma insert_reverse_perm (x : A) (l : list A) :
  insert_reverse key x l ≡ₚ x :: l.
Proof.
  induction l as [|y r IH]; [done|].
  cbn [insert_reverse]. destruct (key y <=? key x); [done|].
  rewrite IH. apply Permutation_swap.
Qed.

Lemma sorted_reverse_perm (l : list A) : sorted_reverse key l ≡ₚ l.
Proof.
  induction l as [|x l IH]; [done|].
  cbn [sorted_reverse foldr]. rewrite insert_reverse_perm. by f_equiv.
Qed.

Lemma insert_reverse_sorted (x : A) (l : list A) :
  StronglySorted (λ a b, key b ≤ key a) l →
  StronglySorted (λ a b, key b ≤ key a) (insert_reverse key x l).
Proof.
  induction 1 as [|y r Hr IH Hy]; cbn [insert_reverse].
  - repeat constructor.
  - destruct (key y <=? key x) eqn:Hle.
    + apply Z.leb_le in Hle. constructor; [by constructor|].
      constructor; [done|].
      eapply Forall_impl; [exact Hy|]. cbn. lia.
    + apply Z.leb_gt in Hle. constructor; [done|].
      rewrite insert_reverse_perm. constructor; [lia|done].
Qed.

Lemma sorted_reverse_sorted (l : list A) :
  StronglySorted (λ a b, key b ≤ key a) (sorted_reverse key l).
Proof.
  induction l as [|x l IH]; [constructor|].
  by apply insert_reverse_sorted.
Qed.

(** Equal keys keep the order of the input. *)
Lemma sorted_reverse_stable_pair (x y : A) :
  key x = key y → sorted_reverse key [x; y] = [x; y].
Proof.
  intros Heq. cbn. rewrite Heq, Z.leb_refl. reflexivity.
Qed.

End sorting.

(** ** The walk over the dev versions *)

Section walk.
Import ManageFleetCharts.
Variable now : datetime.
Variable all_versions : gmap string datetime.

Abbreviation step := (walk_step now all_versions).
Abbreviation run := (walk now all_versions).
Abbreviation pub := (published_of all_versions).
Abbreviation cutoff := (CUTOFF_DATE now).
Abbreviation sbases := (stable_bases all_versions).

Lemma walk_cons (v : string) (l : list string) (st : walk_state) :
  run (v :: l) st = run l (step st v).
Proof. reflexivity. Qed.

Lemma walk_app (l1 l2 : list string) (st : walk_state) :
  run (l1 ++ l2) st = run l2 (run l1 st).
Proof. apply fold_left_app. Qed.

(** The two outcomes of one iteration. *)
Lemma walk_step_cases (st : walk_state) (v : string) :
  (step st v = {| kept_dev := kept_dev st ∪ {[v]};
                  dev_bases_seen := dev_bases_seen st ∪ {[base_of v]} |}
   ∧ (cutoff ≤ pub v
      ∨ (pub v < cutoff ∧ (base_of v ∉ sbases) ∧ (base_of v ∉ dev_bases_seen st))))
  ∨ (step st v = st ∧ pub v < cutoff
     ∧ (base_of v ∈ sbases ∨ base_of v ∈ dev_bases_seen st)).
Proof.
  unfold walk_step.
  destruct (pub v <? cutoff) eqn:Hold; cbn [negb].
  - apply Z.ltb_lt in Hold.
    destruct (bool_decide (base_of v ∉ sbases)) eqn:Hs;
      [apply bool_decide_eq_true in Hs|apply bool_decide_eq_false in Hs];
      cbn [andb].
    + destruct (bool_decide (base_of v ∉ dev_bases_seen st)) eqn:Hd;
        [apply bool_decide_eq_true in Hd|apply bool_decide_eq_false in Hd].
      * left. auto.
      * right. split; [done|]. split; [done|]. right.
        by apply dec_stable.
    + right. split; [done|]. split; [done|]. left. by apply dec_stable.
  - apply Z.ltb_ge in Hold. left. auto.
Qed.

Lemma walk_step_mono (st : walk_state) (v : string) :
  kept_dev st ⊆ kept_dev (step st v)
  ∧ dev_bases_seen st ⊆ dev_bases_seen (step st v).
Proof.
  destruct (walk_step_cases st v) as [[-> _]|[-> _]]; cbn; set_solver.
Qed.

Lemma walk_mono (l : list string) (st : walk_state) :
  kept_dev st ⊆ kept_dev (run l st)
  ∧ dev_bases_seen st ⊆ dev_bases_seen (run l st).
Proof.
  revert st. induction l as [|x l IH]; intros st; [done|].
  rewrite walk_cons.
  destruct (walk_step_mono st x), (IH (step st x)). set_solver.
Qed.

(** Only versions of the list are added to [kept_dev]. *)
Lemma walk_kept_elem (l : list string) (st : walk_state) (v : string) :
  v ∈ kept_dev (run l st) → v ∈ kept_dev st ∨ v ∈ l.
Proof.
  revert st. induction l as [|x l IH]; intros st; [by left|].
  rewrite walk_cons. intros Hv. apply IH in Hv as [Hv|Hv]; [|set_solver].
  destruct (walk_step_cases st x) as [[Hst _]|[Hst _]];
    rewrite Hst in Hv; cbn in Hv; set_solver.
Qed.

(** A base enters [dev_bases_seen] only with a version that is kept. *)
Lemma walk_seen_origin (l : list string) (st : walk_state) (b : string) :
  b ∈ dev_bases_seen (run l st) →
  b ∈ dev_bases_seen st
  ∨ ∃ v, v ∈ l ∧ v ∈ kept_dev (run l st) ∧ base_of v = b.
Proof.
  revert st. induction l as [|x l IH]; intros st; [by left|].
  rewrite walk_cons. intros Hb. apply IH in Hb as [Hb|(v & Hv & Hk & Hbase)].
  - destruct (walk_step_cases st x) as [[Hst _]|[Hst _]].
    + rewrite Hst in Hb. cbn in Hb.
      apply elem_of_union in Hb as [Hb|Hb]; [by left|].
      apply elem_of_singleton in Hb. right. exists x.
      split; [set_solver|]. split; [|done].
      apply (walk_mono l (step st x)). rewrite Hst. cbn. set_solver.
    + rewrite Hst in Hb. by left.
  - right. exists v. set_solver.
Qed.

(** Once a version has been processed, its base is that of a stable
    release or is in [dev_bases_seen]. *)
Lemma walk_processed (l : list string) (st : walk_state) (v : string) :
  v ∈ l → base_of v ∈ sbases ∨ base_of v ∈ dev_bases_seen (run l st).
Proof.
  revert st. induction l as [|x l IH]; intros st Hv; [by apply elem_of_nil in Hv|].
  rewrite walk_cons. apply elem_of_cons in Hv as [Heq|Hv]; [subst v|by apply IH].
  destruct (walk_mono l (step st x)) as [_ Hmono].
  destruct (walk_step_cases st x) as [[Hst _]|[Hst (_ & [Hs|Hd])]].
  - right. apply Hmono. rewrite Hst. cbn. set_solver.
  - by left.
  - right. apply Hmono. by rewrite Hst.
Qed.

(** A recent dev version is kept. *)
Lemma walk_recent (l : list string) (st : walk_state) (v : string) :
  v ∈ l → cutoff ≤ pub v → v ∈ kept_dev (run l st).
Proof.
  revert st. induction l as [|x l IH]; intros st Hv Hrecent;
    [by apply elem_of_nil in Hv|].
  rewrite walk_cons. apply elem_of_cons in Hv as [Heq|Hv]; [subst v|by apply IH].
  destruct (walk_mono l (step st x)) as [Hmono _]. apply Hmono.
  destruct (walk_step_cases st x) as [[Hst _]|[_ (Hold & _)]]; [|lia].
  rewrite Hst. cbn. set_solver.
Qed.

(** Where a kept version was added: the list up to it, and what held there. *)
Lemma walk_split (l : list string) (st : walk_state) (v : string) :
  v ∈ kept_dev (run l st) → v ∉ kept_dev st →
  ∃ l1 l2 : list string, l = (l1 ++ v :: l2)%list
    ∧ (pub v < cutoff →
       (base_of v ∉ sbases) ∧ (base_of v ∉ dev_bases_seen (run l1 st))).
Proof.
  revert st. induction l as [|x l IH]; intros st Hv Hnot; [done|].
  rewrite walk_cons in Hv.
  destruct (decide (v ∈ kept_dev (step st x))) as [Hin|Hout].
  - exists [], l.
    destruct (walk_step_cases st x) as [[Hst Hwhy]|[Hst _]];
      rewrite Hst in Hin; [|done].
    cbn in Hin. apply elem_of_union in Hin as [?|Heq%elem_of_singleton]; [done|].
    subst x. split; [done|]. intros Hold. destruct Hwhy as [?|(_ & ? & ?)]; [lia|done].
  - destruct (IH _ Hv Hout) as (l1 & l2 & -> & Hcond).
    exists (x :: l1), l2. split; [done|]. by rewrite walk_cons.
Qed.

(** An old version whose base has been seen is not added any more. *)
Lemma walk_blocked (l : list string) (st : walk_state) (w : string) :
  pub w < cutoff → base_of w ∈ dev_bases_seen st → w ∉ kept_dev st →
  w ∉ kept_dev (run l st).
Proof.
  revert st. induction l as [|x l IH]; intros st Hold Hseen Hnot; [done|].
  rewrite walk_cons. destruct (walk_step_mono st x) as [_ Hmono].
  apply IH; [done|by apply Hmono|].
  destruct (walk_step_cases st x) as [[Hst Hwhy]|[Hst _]]; rewrite Hst; [|done].
  cbn. intros [?|Heq%elem_of_singleton]%elem_of_union; [done|].
  subst x. destruct Hwhy as [?|(_ & _ & ?)]; [lia|done].
Qed.

(** A version whose base no stable release and no other version of the list
    has is kept. *)
Lemma walk_keeps (l : list string) (st : walk_state) (v : string) :
  v ∈ l → base_of v ∉ sbases → base_of v ∉ dev_bases_seen st →
  (∀ w, w ∈ l → w ≠ v → base_of w ≠ base_of v) →
  v ∈ kept_dev (run l st).
Proof.
  revert st. induction l as [|x l IH]; intros st Hv Hs Hd Hothers;
    [by apply elem_of_nil in Hv|].
  rewrite walk_cons.
  destruct (decide (x = v)) as [->|Hne].
  - destruct (walk_mono l (step st v)) as [Hmono _]. apply Hmono.
    destruct (walk_step_cases st v) as [[Hst _]|[_ (_ & [?|?])]]; [|done..].
    rewrite Hst. cbn. set_solver.
  - apply elem_of_cons in Hv as [Heq|Hv]; [done|].
    apply IH; [done..| |set_solver].
    destruct (walk_step_cases st x) as [[Hst _]|[Hst _]]; rewrite Hst; [|done].
    cbn. intros [?|Heq%elem_of_singleton]%elem_of_union; [done|].
    by apply (Hothers x); [set_solver|..].
Qed.

(** The walk reads [all_versions] only through the dates of the versions of
    the list and through the stable bases. *)
Lemma walk_ext (all_versions' : gmap string datetime) (l : list string)
    (st : walk_state) :
  stable_bases all_versions' = sbases →
  (∀ v, v ∈ l → published_of all_versions' v = pub v) →
  walk now all_versions' l st = run l st.
Proof.
  intros Hs. revert st. induction l as [|x l IH]; intros st Hpub; [done|].
  change (walk now all_versions' (x :: l) st)
    with (walk now all_versions' l (walk_step now all_versions' st x)).
  rewrite walk_cons.
  assert (walk_step now all_versions' st x = step st x) as ->.
  { unfold walk_step. rewrite Hs, Hpub by set_solver. done. }
  apply IH. set_solver.
Qed.

End walk.

(** ** The retention policy *)

Section policy_facts.
Import ManageFleetCharts.
Variable now : datetime.
Variable order : set_iteration.
Variable catalog : gmap string datetime.

Abbreviation pub := (published_of catalog).
Abbreviation cutoff := (CUTOFF_DATE now).
Abbreviation keep := (get_versions_to_keep now order catalog).
Abbreviation kept_final :=
  (kept_dev (walk now catalog (dev_sorted order catalog)
               {| kept_dev := ∅; dev_bases_seen := ∅ |})).

Lemma class_of_Stable (v : string) :
  class_of v = Stable ↔ Str.DEV_VERSION_PATTERN_search v = false.
Proof. unfold class_of. by destruct (Str.DEV_VERSION_PATTERN_search v). Qed.

Lemma class_of_Dev (v : string) :
  class_of v = Dev ↔ Str.DEV_VERSION_PATTERN_search v = true.
Proof. unfold class_of. by destruct (Str.DEV_VERSION_PATTERN_search v). Qed.

(** [is_old] of the source is "the age exceeds the limit". *)
Lemma old_iff_age (v : string) : pub v < cutoff ↔ max_dev_age < age now catalog v.
Proof.
  unfold CUTOFF_DATE, max_dev_age, age, timedelta_weeks, timedelta_days,
    DEV_VERSION_MAX_AGE_DAYS. lia.
Qed.

Lemma elem_of_stable_versions (v : string) :
  v ∈ stable_versions catalog ↔ v ∈ dom catalog ∧ class_of v = Stable.
Proof. unfold stable_versions. rewrite elem_of_filter, class_of_Stable. tauto. Qed.

Lemma elem_of_dev_versions (v : string) :
  v ∈ dev_versions catalog ↔ v ∈ dom catalog ∧ class_of v = Dev.
Proof. unfold dev_versions. rewrite elem_of_filter, class_of_Dev. tauto. Qed.

Lemma elem_of_stable_bases (b : string) :
  b ∈ stable_bases catalog
  ↔ ∃ s, s ∈ dom catalog ∧ class_of s = Stable ∧ base_of s = b.
Proof.
  unfold stable_bases. rewrite elem_of_map. split.
  - intros (s & -> & Hs). apply elem_of_stable_versions in Hs. naive_solver.
  - intros (s & Hd & Hc & <-). exists s. split; [done|].
    by apply elem_of_stable_versions.
Qed.

Lemma dev_sorted_perm : dev_sorted order catalog ≡ₚ elements (dev_versions catalog).
Proof. unfold dev_sorted. by rewrite sorted_reverse_perm, iter_set_perm. Qed.

Lemma elem_of_dev_sorted (v : string) :
  v ∈ dev_sorted order catalog ↔ v ∈ dom catalog ∧ class_of v = Dev.
Proof. by rewrite dev_sorted_perm, elem_of_elements, elem_of_dev_versions. Qed.

(** Every lookup [all_versions[version]] of the walk is at a key. *)
Lemma dev_sorted_keys (v : string) :
  v ∈ dev_sorted order catalog → catalog !! v = Some (pub v).
Proof.
  intros [Hd _]%elem_of_dev_sorted. apply elem_of_dom in Hd as [t Ht].
  unfold published_of. by rewrite Ht.
Qed.

Lemma dev_sorted_NoDup : NoDup (dev_sorted order catalog).
Proof. rewrite dev_sorted_perm. apply NoDup_elements. Qed.

Lemma dev_sorted_sorted :
  StronglySorted (λ a b, pub b ≤ pub a) (dev_sorted order catalog).
Proof. apply sorted_reverse_sorted. Qed.

Lemma elem_of_keep (v : string) :
  v ∈ keep ↔ (v ∈ dom catalog ∧ class_of v = Stable) ∨ v ∈ kept_final.
Proof.
  unfold get_versions_to_keep. cbv zeta.
  by rewrite elem_of_union, elem_of_stable_versions.
Qed.

Lemma kept_final_dev (v : string) :
  v ∈ kept_final → v ∈ dom catalog ∧ class_of v = Dev.
Proof.
  intros [Hv|Hv]%walk_kept_elem; [done|]. by apply elem_of_dev_sorted.
Qed.

Lemma keep_dev (v : string) : v ∈ keep → class_of v = Dev → v ∈ kept_final.
Proof. intros [[_ Hs]|Hk]%elem_of_keep Hc; [congruence|done]. Qed.

(** An old dev version that is kept: no stable release has its base, and
    every other dev version with its base is not younger and is not kept. *)
Lemma kept_old_first (v : string) :
  v ∈ kept_final → pub v < cutoff →
  (base_of v ∉ stable_bases catalog)
  ∧ ∀ w, w ∈ dom catalog → class_of w = Dev → w ≠ v → base_of w = base_of v →
      pub w ≤ pub v ∧ w ∉ kept_final.
Proof.
  intros Hv Hold.
  destruct (walk_split now catalog _ _ _ Hv) as (l1 & l2 & Hl & Hcond); [done|].
  destruct (Hcond Hold) as [Hs Hseen]. split; [done|].
  intros w Hd Hc Hne Hbase.
  assert (w ∈ dev_sorted order catalog) as Hw by by apply elem_of_dev_sorted.
  pose proof dev_sorted_NoDup as Hnd. pose proof dev_sorted_sorted as Hsorted.
  rewrite Hl in Hw, Hnd, Hsorted |- *.
  apply NoDup_app in Hnd as (_ & Hdisj & Hnd2). apply NoDup_cons in Hnd2 as [Hv2 _].
  apply elem_of_app in Hw as [Hw|Hw].
  - exfalso.
    destruct (walk_processed now catalog l1 {| kept_dev := ∅; dev_bases_seen := ∅ |} w Hw)
      as [?|?]; congruence.
  - apply elem_of_cons in Hw as [?|Hw]; [done|].
    apply StronglySorted_app in Hsorted as (_ & _ & Hsorted).
    apply StronglySorted_cons in Hsorted as [Hle _].
    rewrite Forall_forall in Hle. specialize (Hle w Hw).
    split; [done|].
    change (l1 ++ v :: l2)%list with (l1 ++ [v] ++ l2)%list.
    rewrite app_assoc, walk_app.
    apply walk_blocked; [lia| |].
    + rewrite Hbase.
      destruct (walk_processed now catalog (l1 ++ [v])
                  {| kept_dev := ∅; dev_bases_seen := ∅ |} v) as [?|?];
        [set_solver|done..].
    + intros [?|Hin]%walk_kept_elem; [done|].
      apply elem_of_app in Hin as [Hin|Hin].
      * apply (Hdisj w Hin). apply elem_of_cons; by right.
      * by apply list_elem_of_singleton in Hin.
Qed.

(** When some dev version has base [b] and no stable release has, a dev
    version with base [b] is kept. *)
Lemma kept_base_exists (w : string) :
  w ∈ dom catalog → class_of w = Dev → base_of w ∉ stable_bases catalog →
  ∃ v, v ∈ kept_final ∧ base_of v = base_of w.
Proof.
  intros Hd Hc Hs.
  assert (w ∈ dev_sorted order catalog) as Hw by by apply elem_of_dev_sorted.
  destruct (walk_processed now catalog _ {| kept_dev := ∅; dev_bases_seen := ∅ |} w Hw)
    as [?|Hseen]; [done|].
  apply walk_seen_origin in Hseen as [?|(v & _ & Hk & Hb)]; [done|].
  by exists v.
Qed.

End policy_facts.

(** ** The properties of the kept set *)

Import ManageFleetCharts.

(** C3: every version of the catalog that is classified Stable is in the
    set returned by [get_versions_to_keep], whatever its date and whatever
    else the catalog holds. *)
Theorem stable_always_kept (now : datetime) (order : set_iteration)
    (catalog : gmap string datetime) (v : string) :
  v ∈ dom catalog → class_of v = Stable →
  v ∈ get_versions_to_keep now order catalog.
Proof. intros Hd Hc. apply elem_of_keep. by left. Qed.

(** C6: the set returned by [get_versions_to_keep] is a subset of the keys
    of the catalog, and the empty catalog gives the empty set. *)
Theorem keep_subset_of_keys (now : datetime) (order : set_iteration)
    (catalog : gmap string datetime) :
  get_versions_to_keep now order catalog ⊆ dom catalog
  ∧ get_versions_to_keep now order ∅ = ∅.
Proof.
  assert (∀ c, get_versions_to_keep now order c ⊆ dom c) as Hsub.
  { intros c v [[Hd _]|Hk]%elem_of_keep; [done|].
    by apply kept_final_dev in Hk as [Hd _]. }
  split; [apply Hsub|].
  specialize (Hsub ∅). rewrite dom_empty_L in Hsub. set_solver.
Qed.

(** C2: when a Stable version with base [B] is in the catalog, no Dev
    version with base [B] whose age exceeds the limit of 14 days is in the
    set returned by [get_versions_to_keep]. *)
Theorem old_dev_of_stable_base_dropped (now : datetime) (order : set_iteration)
    (catalog : gmap string datetime) (B s v : string) :
  s ∈ dom catalog → class_of s = Stable → base_of s = B →
  old_dev_of now catalog B v →
  v ∉ get_versions_to_keep now order catalog.
Proof.
  intros Hs Hcs Hbs (Hv & Hcv & Hbv & Hage) Hkeep.
  apply keep_dev in Hkeep; [|done].
  apply old_iff_age in Hage.
  destruct (kept_old_first now order catalog v Hkeep Hage) as [Hnot _].
  apply Hnot. apply elem_of_stable_bases. exists s. by rewrite Hbs, Hbv.
Qed.

(** C1: for a base [B] that no Stable version of the catalog has,
    (1) at most one Dev version with base [B] whose age exceeds the limit is
    in the set returned by [get_versions_to_keep];
    (2) such a kept version has the most recent date of all the old Dev
    versions with base [B];
    (3) when no Dev version with base [B] has an age within the limit and
    an old Dev version with base [B] exists, one of them is kept. *)
Theorem one_old_dev_per_base (now : datetime) (order : set_iteration)
    (catalog : gmap string datetime) (B : string) :
  (∀ s, s ∈ dom catalog → class_of s = Stable → base_of s ≠ B) →
  (∀ v w, old_dev_of now catalog B v → old_dev_of now catalog B w →
     v ∈ get_versions_to_keep now order catalog →
     w ∈ get_versions_to_keep now order catalog → v = w)
  ∧ (∀ v w, old_dev_of now catalog B v →
       v ∈ get_versions_to_keep now order catalog →
       old_dev_of now catalog B w →
       published_of catalog w ≤ published_of catalog v)
  ∧ ((∀ r, r ∈ dom catalog → class_of r = Dev → base_of r = B →
        max_dev_age < age now catalog r) →
     (∃ w, old_dev_of now catalog B w) →
     ∃ v, old_dev_of now catalog B v
          ∧ v ∈ get_versions_to_keep now order catalog).
Proof.
  intros Hno.
  assert (∀ v w, old_dev_of now catalog B v → old_dev_of now catalog B w →
            v ∈ get_versions_to_keep now order catalog → w ≠ v →
            published_of catalog w ≤ published_of catalog v
            ∧ w ∉ get_versions_to_keep now order catalog) as Hfirst.
  { intros v w (Hv & Hcv & Hbv & Hagev) (Hw & Hcw & Hbw & Hagew) Hkv Hne.
    apply keep_dev in Hkv; [|done]. apply old_iff_age in Hagev.
    destruct (kept_old_first now order catalog v Hkv Hagev) as [_ Hothers].
    destruct (Hothers w Hw Hcw Hne) as [Hle Hnot]; [congruence|].
    split; [done|]. intros Hkw. apply Hnot. by apply keep_dev. }
  split; [|split].
  - intros v w Hv Hw Hkv Hkw.
    destruct (decide (w = v)) as [->|Hne]; [done|].
    by destruct (Hfirst v w Hv Hw Hkv Hne).
  - intros v w Hv Hkv Hw.
    destruct (decide (w = v)) as [->|Hne]; [done|].
    by destruct (Hfirst v w Hv Hw Hkv Hne).
  - intros Hnorecent (w & Hw & Hcw & Hbw & Hagew).
    destruct (kept_base_exists now order catalog w Hw Hcw) as (v & Hk & Hb).
    { rewrite elem_of_stable_bases. intros (s & Hs & Hcs & Hbs).
      apply (Hno s Hs Hcs). congruence. }
    destruct (kept_final_dev now order catalog v Hk) as [Hd Hc].
    exists v. split.
    + split; [done|]. split; [done|]. split; [congruence|].
      apply Hnorecent; [done..|congruence].
    + apply elem_of_keep. by right.
Qed.

(** ** Applying the policy to what it kept *)

Section idempotence.
Variable now : datetime.
Variables order order' : set_iteration.
Variable catalog : gmap string datetime.

Abbreviation keep := (get_versions_to_keep now order catalog).
Abbreviation kept_catalog := (restrict keep catalog).
Abbreviation kept_final :=
  (kept_dev (walk now catalog (dev_sorted order catalog)
               {| kept_dev := ∅; dev_bases_seen := ∅ |})).

Lemma keep_in_dom (v : string) : v ∈ keep → v ∈ dom catalog.
Proof.
  intros [[Hd _]|Hk]%elem_of_keep; [done|].
  by apply kept_final_dev in Hk as [Hd _].
Qed.

Lemma restrict_lookup (v : string) :
  v ∈ keep → kept_catalog !! v = catalog !! v.
Proof.
  intros Hv. unfold restrict.
  destruct (catalog !! v) as [t|] eqn:Hlook.
  - by apply map_lookup_filter_Some.
  - apply map_lookup_filter_None. left. done.
Qed.

Lemma restrict_dom : dom kept_catalog = keep.
Proof.
  unfold restrict. apply dom_filter_L. intros v. split.
  - intros Hv. pose proof (keep_in_dom v Hv) as Hd.
    apply elem_of_dom in Hd as [t Ht]. by exists t.
  - by intros (t & _ & Hv).
Qed.

Lemma restrict_published (v : string) :
  v ∈ keep → published_of kept_catalog v = published_of catalog v.
Proof. intros Hv. unfold published_of. by rewrite restrict_lookup. Qed.

Lemma restrict_stable_versions :
  stable_versions kept_catalog = stable_versions catalog.
Proof.
  apply set_eq. intros v.
  rewrite !elem_of_stable_versions, restrict_dom. split.
  - intros [Hv Hc]. split; [by apply keep_in_dom|done].
  - intros [Hv Hc]. split; [|done]. apply elem_of_keep. by left.
Qed.

Lemma restrict_stable_bases : stable_bases kept_catalog = stable_bases catalog.
Proof. unfold stable_bases. by rewrite restrict_stable_versions. Qed.

Lemma restrict_dev_versions (v : string) :
  v ∈ dev_versions kept_catalog ↔ v ∈ kept_final.
Proof.
  rewrite elem_of_dev_versions, restrict_dom. split.
  - intros [Hv Hc]. by apply keep_dev.
  - intros Hv. destruct (kept_final_dev now order catalog v Hv) as [_ Hc].
    split; [|done]. apply elem_of_keep. by right.
Qed.

(** The second walk, over the kept dev versions in any order, keeps all of
    them. *)
Lemma second_walk_kept :
  kept_dev (walk now kept_catalog (dev_sorted order' kept_catalog)
              {| kept_dev := ∅; dev_bases_seen := ∅ |}) = kept_final.
Proof.
  assert (∀ v, v ∈ dev_sorted order' kept_catalog ↔ v ∈ kept_final) as Hl.
  { intros v. by rewrite elem_of_dev_sorted, <- elem_of_dev_versions,
      restrict_dev_versions. }
  rewrite (walk_ext now catalog kept_catalog); cycle 1.
  { apply restrict_stable_bases. }
  { intros v Hv%Hl. apply restrict_published, elem_of_keep. by right. }
  apply set_eq. intros v. split.
  - intros [Hv|Hv]%walk_kept_elem; [done|]. by apply Hl.
  - intros Hv.
    destruct (Z_lt_le_dec (published_of catalog v) (CUTOFF_DATE now)) as [Hold|Hrecent].
    + destruct (kept_old_first now order catalog v Hv Hold) as [Hs Hothers].
      apply walk_keeps; [by apply Hl|done|done|].
      intros w Hw%Hl Hne Hbase.
      destruct (kept_final_dev now order catalog w Hw) as [Hd Hc].
      by destruct (Hothers w Hd Hc Hne Hbase) as [_ Hnot].
    + apply walk_recent; [by apply Hl|done].
Qed.

End idempotence.

(** C4: [get_versions_to_keep] is idempotent.  Restricting the catalog to
    the versions that are kept and applying the policy again, at the same
    instant and whatever the iteration order of either run, gives the same
    set. *)
Theorem get_versions_to_keep_idempotent (now : datetime)
    (order order' : set_iteration) (catalog : gmap string datetime) :
  get_versions_to_keep now order'
    (restrict (get_versions_to_keep now order catalog) catalog)
  = get_versions_to_keep now order catalog.
Proof.
  unfold get_versions_to_keep at 1. cbv zeta.
  rewrite second_walk_kept, restrict_stable_versions. reflexivity.
Qed.

(** ** [cleanup_old_versions] and [sync_releases] *)

Section reconcile.
Variable now : datetime.
Variable order : set_iteration.

Lemma cleanup_chart_kept (versions : list version_dict) :
  (cleanup_chart now order versions).1
  = filter (λ e, version e ∈ get_versions_to_keep now order (version_dates versions))
      versions.
Proof. reflexivity. Qed.

(** [v not in kept_versions] is "the version of [v] is not to be kept". *)
Lemma not_in_kept_versions (versions : list version_dict) (e : version_dict) :
  e ∈ versions →
  e ∉ (cleanup_chart now order versions).1
  ↔ version e ∉ get_versions_to_keep now order (version_dates versions).
Proof.
  intros He. rewrite cleanup_chart_kept, list_elem_of_filter. tauto.
Qed.

Lemma cleanup_chart_removed (versions : list version_dict) (v : string) :
  v ∈ (cleanup_chart now order versions).2
  ↔ v ∈ index_versions versions
    ∧ v ∉ get_versions_to_keep now order (version_dates versions).
Proof.
  unfold index_versions. rewrite elem_of_list_to_set.
  change ((cleanup_chart now order versions).2)
    with (version <$> filter (λ e, e ∉ (cleanup_chart now order versions).1) versions).
  rewrite !list_elem_of_fmap. split.
  - intros (e & -> & [Hnot He]%list_elem_of_filter).
    split; [by exists e|]. by apply not_in_kept_versions.
  - intros [(e & -> & He) Hnot]. exists e. split; [done|].
    apply list_elem_of_filter. split; [|done]. by apply not_in_kept_versions.
Qed.

Lemma cleanup_chart_remaining (versions : list version_dict) (v : string) :
  v ∈ index_versions (cleanup_chart now order versions).1
  ↔ v ∈ index_versions versions
    ∧ v ∈ get_versions_to_keep now order (version_dates versions).
Proof.
  unfold index_versions. rewrite !elem_of_list_to_set, cleanup_chart_kept.
  rewrite !list_elem_of_fmap. split.
  - intros (e & -> & [Hk He]%list_elem_of_filter). split; [by exists e|done].
  - intros [(e & -> & He) Hk]. exists e. split; [done|].
    by apply list_elem_of_filter.
Qed.

Lemma cleanup_step_removed (st : cleanup_state) (item : string * list version_dict) :
  removed_versions (cleanup_step now order st item)
  = (removed_versions st ++ (cleanup_chart now order item.2).2)%list.
Proof.
  unfold cleanup_step. by destruct (cleanup_chart now order item.2) as [[|e k] r].
Qed.

Lemma cleanup_fold_removed (data_entries : list (string * list version_dict))
    (st : cleanup_state) (v : string) :
  v ∈ removed_versions (fold_left (cleanup_step now order) data_entries st)
  ↔ v ∈ removed_versions st
    ∨ ∃ item, item ∈ data_entries ∧ v ∈ (cleanup_chart now order item.2).2.
Proof.
  revert st. induction data_entries as [|item data IH]; intros st.
  - cbn [fold_left]. split; [by left|]. intros [?|(item & Hin & _)]; [done|].
    by apply elem_of_nil in Hin.
  - cbn [fold_left]. rewrite IH, cleanup_step_removed, elem_of_app. split.
    + intros [[?|?]|(i & Hi & Hv)]; [by left| |].
      * right. exists item. split; [|done]. by left.
      * right. exists i. split; [|done]. by right.
    + intros [?|(i & [->|Hi]%elem_of_cons & Hv)]; [by left; left|by left; right|].
      right. by exists i.
Qed.

Lemma missing_of_versions (all_releases : gmap string datetime)
    (existing : gset string) (v : string) :
  v ∈ (missing_of now order all_releases existing).*1
  ↔ v ∈ dom all_releases
    ∧ v ∈ get_versions_to_keep now order (combine now order all_releases existing)
    ∧ v ∉ existing.
Proof.
  unfold missing_of. cbv zeta.
  rewrite <- list_fmap_compose.
  change (fst ∘ (λ v0 : string, (v0, published_of all_releases v0)))
    with (@id string).
  rewrite list_fmap_id, list_elem_of_filter, iter_set_perm, elem_of_elements.
  tauto.
Qed.

End reconcile.

(** C7: in a run of [cleanup_old_versions], for every chart the versions
    that are reported as removed, and the versions that the list written
    back no longer holds, are exactly the versions of the chart that are not
    in the kept set of that chart; over the whole index the reported
    versions are those of all the charts.  In a run of [sync_releases] the
    versions of [missing] are exactly the versions of the feed that are in
    the kept set of the combined catalog and are not in the index. *)
Theorem reconcile_sets (now : datetime) (order : set_iteration) :
  (∀ versions : list version_dict,
     list_to_set (cleanup_chart now order versions).2
     = index_versions versions
       ∖ get_versions_to_keep now order (version_dates versions)
     ∧ index_versions versions ∖ index_versions (cleanup_chart now order versions).1
       = index_versions versions
         ∖ get_versions_to_keep now order (version_dates versions))
  ∧ (∀ (data_entries : list (string * list version_dict)) (v : string),
       v ∈ removed_versions (cleanup_loop now order data_entries)
       ↔ ∃ item, item ∈ data_entries
           ∧ v ∈ index_versions item.2
               ∖ get_versions_to_keep now order (version_dates item.2))
  ∧ (∀ (all_releases : gmap string datetime) (existing : gset string),
       list_to_set (missing_of now order all_releases existing).*1
       = (dom all_releases
          ∩ get_versions_to_keep now order (combine now order all_releases existing))
         ∖ existing).
Proof.
  split; [|split].
  - intros versions. split; apply set_eq; intros v.
    + rewrite elem_of_list_to_set, cleanup_chart_removed, elem_of_difference. tauto.
    + rewrite !elem_of_difference, cleanup_chart_remaining. tauto.
  - intros data v. unfold cleanup_loop. rewrite cleanup_fold_removed. cbn.
    split.
    + intros [Hv|(item & Hi & Hv)]; [by apply elem_of_nil in Hv|].
      exists item. split; [done|].
      apply elem_of_difference. by apply cleanup_chart_removed.
    + intros (item & Hi & Hv). right. exists item. split; [done|].
      apply cleanup_chart_removed. by apply elem_of_difference.
  - intros all_releases existing. apply set_eq. intros v.
    rewrite elem_of_list_to_set, missing_of_versions.
    rewrite elem_of_difference, elem_of_intersection. tauto.
Qed.

(** ** The base version that the policy uses *)

Lemma base_of_match (v : string) :
  base_of v = match Str.match_base v with
              | Some group1 => group1
              | None => Str.split_dash_0 v
              end.
Proof.
  unfold base_of, extract_base_version. by rewrite match_base_split_dash_0.
Qed.

(** C8, as the code has it: for a version with no three-component numeric
    prefix the base that [get_versions_to_keep] uses is the part of the
    version before its first ['-'] (the whole version when it has no ['-']),
    and another version has the same base exactly when it has the same part
    before its first ['-']. *)
Theorem base_of_without_prefix (v : string) :
  Str.match_base v = None →
  base_of v = Str.split_dash_0 v
  ∧ (Str.split_dash_0 v = v → base_of v = v)
  ∧ (∀ w, base_of w = base_of v ↔ Str.split_dash_0 w = Str.split_dash_0 v).
Proof.
  intros Hv.
  assert (base_of v = Str.split_dash_0 v) as Hbase
    by by rewrite base_of_match, Hv.
  split; [done|]. split; [congruence|].
  intros w. rewrite Hbase, base_of_match. split.
  - destruct (Str.match_base w) as [g|] eqn:Hw; [|done].
    intros ->. apply match_base_group in Hw.
    rewrite match_base_split_dash_0 in Hw. congruence.
  - intros Heq.
    rewrite <- (match_base_split_dash_0 w), Heq, match_base_split_dash_0, Hv.
    done.
Qed.

Lemma base_of_without_prefix_witness :
  base_of "1.2-rc1" = Str.split_dash_0 "1.2-rc1"
  ∧ (Str.split_dash_0 "1.2-rc1" = "1.2-rc1" → base_of "1.2-rc1" = "1.2-rc1")
  ∧ (∀ w, base_of w = base_of "1.2-rc1"
          ↔ Str.split_dash_0 w = Str.split_dash_0 "1.2-rc1").
Proof. apply (base_of_without_prefix "1.2-rc1"). reflexivity. Defined.

(** C8 as stated fails: ["1.2-rc1"] has no three-component numeric prefix,
    its base is ["1.2"] and not the version itself, and the distinct version
    ["1.2-rc2"] has the same base. *)
Lemma base_of_not_full_string :
  Str.match_base "1.2-rc1" = None
  ∧ base_of "1.2-rc1" = "1.2"
  ∧ base_of "1.2-rc1" ≠ "1.2-rc1"
  ∧ "1.2-rc2" ≠ "1.2-rc1"
  ∧ base_of "1.2-rc2" = base_of "1.2-rc1".
Proof. repeat split; done. Qed.

Corollary base_of_full_string_refuted :
  ¬ (∀ v, Str.match_base v = None →
          base_of v = v ∧ ∀ w, w ≠ v → base_of w ≠ base_of v).
Proof.
  intros H. destruct (H "1.2-rc1" eq_refl) as [Hfull _]. discriminate Hfull.
Qed.

(** The two versions are treated as one base: only the younger is kept. *)
Example two_component_catalog_keep :
  get_versions_to_keep example_now elements_order two_component_catalog
  = {[ "1.2-rc2" ]}.
Proof. vm_compute. reflexivity. Qed.

(** ** Classification by the version string alone *)

(** C5: [get_versions_to_keep] receives version strings only and classifies
    by them; [is_dev_version], which reads the concatenation of [version] and
    [appVersion], is not called.  On the index [app_marker_index] the entry
    with the marker in [appVersion] is a dev version for [is_dev_version],
    [cleanup_old_versions] keeps it as a stable version and removes the
    release candidate of its base, and the rule of remove-rcs-from-index.py,
    which does call [is_dev_version], keeps the release candidate and
    removes the entry. *)
Theorem cleanup_ignores_appVersion :
  is_dev_version app_marker_entry = true
  ∧ class_of (version app_marker_entry) = Stable
  ∧ cleanup_old_versions example_now elements_order app_marker_index
    = ([("fleet", [app_marker_entry])], Some "2.0.0-rc2")
  ∧ RemoveRcsFromIndex.cleanup example_now app_marker_index
    = [("fleet", [rc_entry])].
Proof. repeat split; vm_compute; reflexivity. Qed.

(** ** The loop of [sync_releases] *)

Section sync_loop.
Variable download_ok : string → string → bool.

Lemma download_charts_ok (charts : list string) (v : string)
    (dir : list (string * string)) :
  (download_charts download_ok charts v dir).1
  = forallb (λ chart, download_ok chart v) charts.
Proof.
  revert dir. induction charts as [|chart charts IH]; intros dir; [done|].
  cbn [download_charts forallb]. destruct (download_ok chart v); [apply IH|done].
Qed.

(** A failed version does not stop the loop: every version of [missing] is
    counted, as added when all its charts were downloaded and as failed
    otherwise. *)
Lemma sync_loop_counts (missing : list (string * datetime)) (st : sync_state) :
  added (fold_left (sync_step download_ok) missing st)
  = (added st + length (versions_added download_ok missing))%nat
  ∧ (added (fold_left (sync_step download_ok) missing st)
     + failed (fold_left (sync_step download_ok) missing st)
     = added st + failed st + length missing)%nat.
Proof.
  revert st. induction missing as [|[v t] missing IH]; intros st.
  - cbn. lia.
  - cbn [fold_left]. destruct (IH (sync_step download_ok st (v, t))) as [IH1 IH2].
    assert (added (sync_step download_ok st (v, t))
            = (added st + length (versions_added download_ok [(v, t)]))%nat
            ∧ (added (sync_step download_ok st (v, t))
               + failed (sync_step download_ok st (v, t))
               = added st + failed st + 1)%nat) as [Hadded Hboth].
    { unfold sync_step, versions_added, fully_downloaded. cbn [fst fmap list_fmap].
      pose proof (download_charts_ok CHARTS v (downloaded st)) as Hok.
      destruct (download_charts download_ok CHARTS v (downloaded st)) as [ok dir].
      cbn [fst] in Hok. subst ok. rewrite filter_cons.
      destruct (forallb (λ chart, download_ok chart v) CHARTS) eqn:Hall.
      - rewrite decide_True by done. cbn. lia.
      - rewrite decide_False by done. cbn. lia. }
    split.
    + rewrite IH1, Hadded. unfold versions_added. cbn [fmap list_fmap fst].
      rewrite !(filter_cons _ v), filter_nil.
      destruct (decide (fully_downloaded download_ok v = true)); cbn [length]; lia.
    + rewrite IH2, Hboth. cbn [length]. lia.
Qed.

End sync_loop.

(** C9: on the feed [two_release_feed] with an empty index, the download of
    ["1.1.0"], which the loop visits first, fails and that of ["1.0.0"]
    succeeds.  The run goes on after the failure and adds ["1.0.0"] alone,
    but [synced_versions.txt] holds ["1.1.0"]: the file is written from
    [missing[:added]], the first [added] versions of [missing], and not from
    the versions that were added. *)
Theorem synced_versions_names_failed_version :
  (missing_of example_now elements_order two_release_feed ∅).*1 = ["1.1.0"; "1.0.0"]
  ∧ versions_added fails_1_1_0
      (missing_of example_now elements_order two_release_feed ∅) = ["1.0.0"]
  ∧ sync_releases example_now elements_order two_release_feed ∅ fails_1_1_0 true
    = SyncDone 1 1
        [("fleet", "1.0.0"); ("fleet-crd", "1.0.0"); ("fleet-agent", "1.0.0")]
        (Some "1.1.0").
Proof. repeat split; vm_compute; reflexivity. Qed.

(** ** The two retention rules *)

Section remove_rcs.
Variable now : datetime.

Lemma remove_rcs_kept_sub (versions : list version_dict) (e : version_dict) :
  e ∈ RemoveRcsFromIndex.kept_versions now versions → e ∈ versions.
Proof.
  unfold RemoveRcsFromIndex.kept_versions. cbv zeta.
  destruct (filter (λ v, RemoveRcsFromIndex.is_dev_version v = false) versions).
  - destruct (filter _ (filter _ versions)) as [|first rest].
    + intros [_ [_ He]%list_elem_of_filter]%list_elem_of_filter. done.
    + by intros [_ He]%list_elem_of_filter.
  - by intros [_ He]%list_elem_of_filter.
Qed.

(** Once the chart has a final version, the rule of
    remove-rcs-from-index.py keeps no old dev version. *)
Lemma remove_rcs_drops_old_dev (versions : list version_dict)
    (f e : version_dict) :
  f ∈ versions → RemoveRcsFromIndex.is_dev_version f = false →
  RemoveRcsFromIndex.is_dev_version e = true →
  RemoveRcsFromIndex.is_old e (RemoveRcsFromIndex.cutoff_date now) = true →
  e ∉ RemoveRcsFromIndex.kept_versions now versions.
Proof.
  intros Hf Hfinal Hdev Hold. unfold RemoveRcsFromIndex.kept_versions. cbv zeta.
  destruct (filter (λ v, RemoveRcsFromIndex.is_dev_version v = false) versions)
    as [|f' finals] eqn:Hfilter.
  - assert (f ∈ filter (λ v, RemoveRcsFromIndex.is_dev_version v = false) versions)
      as Hin by by apply list_elem_of_filter.
    rewrite Hfilter in Hin. by apply elem_of_nil in Hin.
  - intros [[Hcase|[_ Hcase]] _]%list_elem_of_filter; congruence.
Qed.

End remove_rcs.

(** C10: the rule of [get_versions_to_keep], as [cleanup_old_versions]
    applies it to a chart, and the rule of remove-rcs-from-index.py are not
    the same function.  At every instant and for every iteration order there
    is a chart on which the sets of versions they keep differ: a release
    and an old dev version of a later base, which the first rule keeps and
    the second removes. *)
Theorem retention_rules_differ (now : datetime) (order : set_iteration) :
  ∃ versions : list version_dict,
    index_versions (cleanup_chart now order versions).1
    ≠ index_versions (RemoveRcsFromIndex.kept_versions now versions).
Proof.
  exists (released_and_old_dev now).
  assert ("1.1.0-rc1" ∈ index_versions (cleanup_chart now order (released_and_old_dev now)).1)
    as Hleft.
  { apply cleanup_chart_remaining. split.
    { apply elem_of_list_to_set. cbn. set_solver. }
    set (catalog := version_dates (released_and_old_dev now)).
    assert (∀ s, s ∈ dom catalog → s = "1.1.0-rc1" ∨ s = "1.0.0") as Hdom.
    { intros s. unfold catalog, version_dates. cbn [fold_left released_and_old_dev].
      rewrite !dom_insert_L, dom_empty_L. set_solver. }
    assert ("1.1.0-rc1" ∈ dom catalog) as Hin.
    { unfold catalog, version_dates. cbn [fold_left released_and_old_dev].
      rewrite !dom_insert_L. set_solver. }
    destruct (kept_base_exists now order catalog "1.1.0-rc1" Hin eq_refl)
      as (u & Hu & Hbase).
    { rewrite elem_of_stable_bases. intros (s & Hs & Hc & Hb).
      destruct (Hdom s Hs) as [->| ->]; discriminate. }
    apply elem_of_keep. right.
    destruct (kept_final_dev now order catalog u Hu) as [Hd Hc].
    destruct (Hdom u Hd) as [->| ->]; [done|discriminate]. }
  assert ("1.1.0-rc1" ∉ index_versions
            (RemoveRcsFromIndex.kept_versions now (released_and_old_dev now)))
    as Hright.
  { unfold index_versions. rewrite elem_of_list_to_set, list_elem_of_fmap.
    intros (e & Hv & He).
    pose proof (remove_rcs_kept_sub now _ e He) as Hsub.
    apply elem_of_cons in Hsub as [->|Hsub]; [discriminate|].
    apply list_elem_of_singleton in Hsub. subst e. revert He.
    apply (remove_rcs_drops_old_dev now _
             {| version := "1.0.0"; appVersion := Some "1.0.0"; created := now |}).
    - by left.
    - reflexivity.
    - reflexivity.
    - unfold RemoveRcsFromIndex.is_old, RemoveRcsFromIndex.cutoff_date,
        RemoveRcsFromIndex.AGE_LIMIT, RemoveRcsFromIndex.parse_created_date,
        timedelta_weeks, timedelta_days.
      cbn [created]. apply Z.ltb_lt. lia. }
  intros Heq. apply Hright. by rewrite <- Heq.
Qed.

(** The same chart at a fixed instant, by evaluation. *)
Example retention_rules_differ_example :
  (cleanup_chart example_now elements_order (released_and_old_dev example_now)).1
  = released_and_old_dev example_now
  ∧ RemoveRcsFromIndex.kept_versions example_now (released_and_old_dev example_now)
    = [ {| version := "1.0.0"; appVersion := Some "1.0.0"; created := example_now |} ].
Proof. split; vm_compute; reflexivity. Qed.

(** ** The policy on the scenarios *)

Ltac by_evaluation := apply (bool_decide_unpack _); vm_compute; exact I.

Example scenario_A_keep :
  get_versions_to_keep example_now elements_order scenario_A = {[ "1.2.3" ]}.
Proof. vm_compute. reflexivity. Qed.

Example scenario_B_keep :
  get_versions_to_keep example_now elements_order scenario_B = {[ "1.3.0-rc2" ]}.
Proof. vm_compute. reflexivity. Qed.

Example scenario_C_keep :
  get_versions_to_keep example_now elements_order scenario_C = {[ "1.4.0-rc1" ]}.
Proof. vm_compute. reflexivity. Qed.

Example scenario_D_keep :
  get_versions_to_keep example_now elements_order scenario_D = {[ "1.5.0-beta2" ]}.
Proof. vm_compute. reflexivity. Qed.

Lemma stable_always_kept_witness :
  "1.2.3" ∈ dom scenario_A ∧ class_of "1.2.3" = Stable
  ∧ "1.2.3" ∈ get_versions_to_keep example_now elements_order scenario_A.
Proof.
  assert ("1.2.3" ∈ dom scenario_A) as Hdom by by_evaluation.
  split; [exact Hdom|]. split; [reflexivity|].
  exact (stable_always_kept example_now elements_order scenario_A "1.2.3"
           Hdom eq_refl).
Defined.

Lemma old_dev_of_stable_base_dropped_witness :
  old_dev_of example_now scenario_A "1.2.3" "1.2.3-rc1"
  ∧ "1.2.3-rc1" ∉ get_versions_to_keep example_now elements_order scenario_A.
Proof.
  assert (old_dev_of example_now scenario_A "1.2.3" "1.2.3-rc1") as Hold.
  { split; [by_evaluation|]. split; [reflexivity|]. split; [reflexivity|].
    vm_compute. reflexivity. }
  split; [exact Hold|].
  apply (old_dev_of_stable_base_dropped example_now elements_order scenario_A
           "1.2.3" "1.2.3" "1.2.3-rc1").
  - by_evaluation.
  - reflexivity.
  - reflexivity.
  - exact Hold.
Defined.

Lemma one_old_dev_per_base_witness :
  (∀ v w, old_dev_of example_now scenario_B "1.3.0" v →
     old_dev_of example_now scenario_B "1.3.0" w →
     v ∈ get_versions_to_keep example_now elements_order scenario_B →
     w ∈ get_versions_to_keep example_now elements_order scenario_B → v = w)
  ∧ (∀ v w, old_dev_of example_now scenario_B "1.3.0" v →
       v ∈ get_versions_to_keep example_now elements_order scenario_B →
       old_dev_of example_now scenario_B "1.3.0" w →
       published_of scenario_B w ≤ published_of scenario_B v)
  ∧ ((∀ r, r ∈ dom scenario_B → class_of r = Dev → base_of r = "1.3.0" →
        max_dev_age < age example_now scenario_B r) →
     (∃ w, old_dev_of example_now scenario_B "1.3.0" w) →
     ∃ v, old_dev_of example_now scenario_B "1.3.0" v
          ∧ v ∈ get_versions_to_keep example_now elements_order scenario_B).
Proof.
  apply (one_old_dev_per_base example_now elements_order scenario_B "1.3.0").
  intros s Hs Hc Hb.
  assert ("1.3.0" ∉ stable_bases scenario_B) as Hnot by by_evaluation.
  apply Hnot. apply elem_of_stable_bases. by exists s.
Defined.

(** ** The two regular expressions on examples *)

Example match_base_rc : Str.match_base "1.2.3-rc1" = Some "1.2.3".
Proof. reflexivity. Qed.
Example match_base_long : Str.match_base "10.20.345.6" = Some "10.20.345".
Proof. reflexivity. Qed.
Example match_base_two : Str.match_base "1.2-rc1" = None.
Proof. reflexivity. Qed.
Example match_base_v : Str.match_base "v1.2.3" = None.
Proof. reflexivity. Qed.
Example search_rc : Str.DEV_VERSION_PATTERN_search "0.9.1-rc.2" = true.
Proof. reflexivity. Qed.
Example search_stable : Str.DEV_VERSION_PATTERN_search "0.9.1" = false.
Proof. reflexivity. Qed.
Example split_dash_0_ex : Str.split_dash_0 "1.2.3-rc1-x" = "1.2.3".
Proof. reflexivity. Qed.

(** * Further properties of the scripts *)

(** ** The retention policy *)

Section policy_more.
Variable now : datetime.
Variable order : set_iteration.
Variable catalog : gmap string datetime.

Abbreviation keep := (get_versions_to_keep now order catalog).
Abbreviation kept_final :=
  (kept_dev (walk now catalog (dev_sorted order catalog)
               {| kept_dev := ∅; dev_bases_seen := ∅ |})).

Lemma recent_iff_age (v : string) :
  CUTOFF_DATE now ≤ published_of catalog v ↔ age now catalog v ≤ max_dev_age.
Proof. pose proof (old_iff_age now catalog v). lia. Qed.

Lemma kept_final_in_keep (v : string) : v ∈ kept_final → v ∈ keep.
Proof. intros Hv. apply elem_of_keep. by right. Qed.

(** A dev version that no other dev version of its base equals or exceeds
    in date, and whose base has no stable release, is kept. *)
Lemma newest_of_base_kept (v : string) :
  v ∈ dom catalog → class_of v = Dev →
  base_of v ∉ stable_bases catalog →
  (∀ w, w ∈ dom catalog → class_of w = Dev → w ≠ v → base_of w = base_of v →
        published_of catalog w < published_of catalog v) →
  v ∈ kept_final.
Proof.
  intros Hd Hc Hs Hnewest.
  destruct (kept_base_exists now order catalog v Hd Hc Hs) as (u & Hu & Hb).
  destruct (decide (u = v)) as [->|Hne]; [done|].
  destruct (kept_final_dev now order catalog u Hu) as [Hud Huc].
  specialize (Hnewest u Hud Huc Hne Hb).
  destruct (Z_lt_le_dec (published_of catalog u) (CUTOFF_DATE now)) as [Hold|Hrecent].
  - exfalso.
    destruct (kept_old_first now order catalog u Hu Hold) as [_ Hothers].
    destruct (Hothers v Hd Hc) as [Hle _]; [congruence..|]. lia.
  - apply walk_recent; [by apply elem_of_dev_sorted|lia].
Qed.

End policy_more.

(** X1: a dev version whose age is within the limit of 14 days is kept,
    whatever else the catalog holds. *)
Theorem recent_dev_always_kept (now : datetime) (order : set_iteration)
    (catalog : gmap string datetime) (v : string) :
  v ∈ dom catalog → class_of v = Dev → age now catalog v ≤ max_dev_age →
  v ∈ get_versions_to_keep now order catalog.
Proof.
  intros Hd Hc Hage. apply kept_final_in_keep.
  apply walk_recent; [by apply elem_of_dev_sorted|by apply recent_iff_age].
Qed.

Lemma recent_dev_always_kept_witness :
  "1.5.0-beta2" ∈ get_versions_to_keep example_now elements_order scenario_D.
Proof.
  apply (recent_dev_always_kept example_now elements_order scenario_D "1.5.0-beta2").
  - by_evaluation.
  - reflexivity.
  - vm_compute. discriminate.
Defined.

(** X2: no base disappears: for every version of the catalog, a version
    with the same base is kept.  In particular the kept set of a catalog
    that is not empty is not empty. *)
Theorem every_base_survives (now : datetime) (order : set_iteration)
    (catalog : gmap string datetime) (v : string) :
  v ∈ dom catalog →
  ∃ u, u ∈ get_versions_to_keep now order catalog ∧ base_of u = base_of v.
Proof.
  intros Hd.
  destruct (decide (base_of v ∈ stable_bases catalog)) as [Hs|Hs].
  - apply elem_of_stable_bases in Hs as (s & Hsd & Hsc & Hsb).
    exists s. split; [|done]. apply elem_of_keep. by left.
  - destruct (class_of v) eqn:Hc.
    + exfalso. apply Hs. apply elem_of_stable_bases. by exists v.
    + destruct (kept_base_exists now order catalog v Hd Hc Hs) as (u & Hu & Hb).
      exists u. split; [by apply kept_final_in_keep|done].
Qed.

Lemma every_base_survives_witness :
  ∃ u, u ∈ get_versions_to_keep example_now elements_order scenario_B
       ∧ base_of u = base_of "1.3.0-rc1".
Proof.
  apply (every_base_survives example_now elements_order scenario_B "1.3.0-rc1").
  by_evaluation.
Defined.

(** X3: an old dev version is dropped when the catalog has a dev version
    of the same base with a later date. *)
Theorem superseded_old_dev_dropped (now : datetime) (order : set_iteration)
    (catalog : gmap string datetime) (v w : string) :
  v ∈ dom catalog → class_of v = Dev → max_dev_age < age now catalog v →
  w ∈ dom catalog → class_of w = Dev → base_of w = base_of v →
  published_of catalog v < published_of catalog w →
  v ∉ get_versions_to_keep now order catalog.
Proof.
  intros Hd Hc Hage Hwd Hwc Hb Hlt Hkeep.
  apply keep_dev in Hkeep; [|done]. apply old_iff_age in Hage.
  destruct (kept_old_first now order catalog v Hkeep Hage) as [_ Hothers].
  destruct (Hothers w Hwd Hwc) as [Hle _]; [|done|lia].
  intros ->. lia.
Qed.

Lemma superseded_old_dev_dropped_witness :
  "1.3.0-rc1" ∉ get_versions_to_keep example_now elements_order scenario_B.
Proof.
  apply (superseded_old_dev_dropped example_now elements_order scenario_B
           "1.3.0-rc1" "1.3.0-rc2").
  - by_evaluation.
  - reflexivity.
  - vm_compute. reflexivity.
  - by_evaluation.
  - reflexivity.
  - reflexivity.
  - vm_compute. reflexivity.
Defined.

(** X4: a dev version, old or not, is kept when no stable version has its
    base and every other dev version of its base has an earlier date. *)
Theorem newest_dev_of_unreleased_base_kept (now : datetime)
    (order : set_iteration) (catalog : gmap string datetime) (v : string) :
  v ∈ dom catalog → class_of v = Dev →
  (∀ s, s ∈ dom catalog → class_of s = Stable → base_of s ≠ base_of v) →
  (∀ w, w ∈ dom catalog → class_of w = Dev → w ≠ v → base_of w = base_of v →
        published_of catalog w < published_of catalog v) →
  v ∈ get_versions_to_keep now order catalog.
Proof.
  intros Hd Hc Hno Hnewest. apply kept_final_in_keep.
  apply newest_of_base_kept; [done..| |done].
  rewrite elem_of_stable_bases. intros (s & Hs & Hsc & Hsb). by apply (Hno s).
Qed.

Lemma scenario_B_dom (s : string) :
  s ∈ dom scenario_B → s = "1.3.0-rc1" ∨ s = "1.3.0-rc2".
Proof.
  unfold scenario_B. rewrite dom_insert_L, dom_singleton_L. set_solver.
Qed.

Lemma newest_dev_of_unreleased_base_kept_witness :
  "1.3.0-rc2" ∈ get_versions_to_keep example_now elements_order scenario_B.
Proof.
  apply (newest_dev_of_unreleased_base_kept example_now elements_order
           scenario_B "1.3.0-rc2").
  - by_evaluation.
  - reflexivity.
  - intros s Hs Hc. destruct (scenario_B_dom s Hs) as [-> | ->]; discriminate Hc.
  - intros w Hw _ Hne _. destruct (scenario_B_dom w Hw) as [-> | ->].
    + vm_compute. reflexivity.
    + by destruct Hne.
Defined.

(** X5: when no two old dev versions of one base have the same date, the
    kept set does not depend on the order in which the set of dev versions
    is iterated. *)
Theorem keep_independent_of_iteration (now : datetime)
    (order order' : set_iteration) (catalog : gmap string datetime) :
  no_tied_old_devs now catalog →
  get_versions_to_keep now order catalog
  = get_versions_to_keep now order' catalog.
Proof.
  intros Hties.
  assert (∀ o o' v, v ∈ get_versions_to_keep now o catalog →
                    v ∈ get_versions_to_keep now o' catalog) as Hincl.
  { intros o o' v [Hstable|Hk]%elem_of_keep; [apply elem_of_keep; by left|].
    apply kept_final_in_keep.
    destruct (kept_final_dev now o catalog v Hk) as [Hd Hc].
    destruct (Z_lt_le_dec (published_of catalog v) (CUTOFF_DATE now)) as [Hold|Hrecent].
    - destruct (kept_old_first now o catalog v Hk Hold) as [Hs Hothers].
      apply newest_of_base_kept; [done..|].
      intros w Hwd Hwc Hne Hb.
      destruct (Hothers w Hwd Hwc Hne Hb) as [Hle _].
      destruct (Z.eq_dec (published_of catalog w) (published_of catalog v))
        as [Heq|?]; [|lia].
      destruct Hne. apply (Hties (base_of v)); [| |done].
      + split; [done|]. split; [done|]. split; [done|].
        apply old_iff_age. lia.
      + split; [done|]. split; [done|]. split; [done|]. by apply old_iff_age.
    - apply walk_recent; [by apply elem_of_dev_sorted|done]. }
  apply set_eq. intros v. split; apply Hincl.
Qed.

Lemma keep_independent_of_iteration_witness :
  get_versions_to_keep example_now elements_order scenario_B
  = get_versions_to_keep example_now reverse_order scenario_B.
Proof.
  apply (keep_independent_of_iteration example_now elements_order reverse_order
           scenario_B).
  intros B v w (Hv & _) (Hw & _) Heq.
  destruct (scenario_B_dom v Hv) as [-> | ->],
           (scenario_B_dom w Hw) as [-> | ->];
    try reflexivity; vm_compute in Heq; discriminate Heq.
Defined.

(** ** Dates that tie *)

Section ties.
Variable now : datetime.
Variable order : set_iteration.
Variable catalog : gmap string datetime.

(** The first version of the walk is kept unless a stable version has its
    base. *)
Lemma head_of_dev_sorted_kept (x : string) (l : list string) :
  dev_sorted order catalog = x :: l →
  base_of x ∉ stable_bases catalog →
  x ∈ get_versions_to_keep now order catalog.
Proof.
  intros Hl Hs. apply kept_final_in_keep. rewrite Hl, walk_cons.
  apply walk_mono.
  destruct (walk_step_cases now catalog {| kept_dev := ∅; dev_bases_seen := ∅ |} x)
    as [[Hst _]|[_ (_ & [?|Hseen])]]; [|done|by apply not_elem_of_empty in Hseen].
  rewrite Hst. cbn. set_solver.
Qed.

End ties.

Lemma tied_catalog_dev_elements (now : datetime) :
  elements (dev_versions (tied_catalog now)) = ["1.3.0-rc1"; "1.3.0-rc2"].
Proof. vm_compute. reflexivity. Qed.

Lemma tied_catalog_published (now : datetime) (v : string) :
  v ∈ dom (tied_catalog now) →
  (v = "1.3.0-rc1" ∨ v = "1.3.0-rc2")
  ∧ published_of (tied_catalog now) v = now - timedelta_days 30.
Proof.
  unfold tied_catalog. rewrite dom_insert_L, dom_singleton_L.
  intros [->%elem_of_singleton| ->%elem_of_singleton]%elem_of_union;
    (split; [auto|]); unfold published_of.
  - by rewrite lookup_insert_eq.
  - rewrite lookup_insert_ne by done. by rewrite lookup_singleton_eq.
Qed.

(** X6: with dates that tie the kept set does depend on the order in which
    the set of dev versions is iterated: of two old release candidates of
    one base with the same date, each order keeps the one it visits first. *)
Theorem keep_depends_on_iteration_of_ties (now : datetime) :
  get_versions_to_keep now elements_order (tied_catalog now) = {[ "1.3.0-rc1" ]}
  ∧ get_versions_to_keep now reverse_order (tied_catalog now) = {[ "1.3.0-rc2" ]}.
Proof.
  set (c := tied_catalog now).
  assert (∀ b, b ∉ stable_bases c) as Hsb.
  { intros b (s & Hs & Hc & _)%elem_of_stable_bases.
    destruct (tied_catalog_published now s Hs) as [[-> | ->] _]; discriminate Hc. }
  assert (∀ v, v ∈ dom c → published_of c v < CUTOFF_DATE now) as Hold.
  { intros v Hv. destruct (tied_catalog_published now v Hv) as [_ Hp].
    fold c in Hp. rewrite Hp.
    unfold CUTOFF_DATE, timedelta_weeks, timedelta_days. lia. }
  assert (∀ o x y, dev_sorted o c = [x; y] → x ≠ y →
            get_versions_to_keep now o c = {[ x ]}) as Hfirst.
  { intros o x y Hl Hne.
    assert (x ∈ get_versions_to_keep now o c) as Hx
      by (eapply head_of_dev_sorted_kept; [exact Hl|apply Hsb]).
    assert (∀ v, v ∈ dom c ∧ class_of v = Dev ↔ v = x ∨ v = y) as Hdev.
    { intros v. rewrite <- elem_of_dev_sorted, Hl.
      by rewrite elem_of_cons, list_elem_of_singleton. }
    assert (∀ v, v ∈ dom c → class_of v = Dev) as Hall.
    { intros v Hv.
      destruct (tied_catalog_published now v Hv) as [[-> | ->] _]; reflexivity. }
    apply set_eq. intros v. rewrite elem_of_singleton. split; [|by intros ->].
    intros Hv.
    assert (v ∈ dom c) as Hvd by (revert Hv; apply keep_in_dom).
    destruct (proj1 (Hdev v) (conj Hvd (Hall v Hvd))) as [->| ->]; [done|].
    exfalso.
    assert (x ∈ dom c) as Hxd by (apply (Hdev x); by left).
    apply keep_dev in Hx; [|by apply Hall].
    destruct (kept_old_first now o c x Hx (Hold x Hxd)) as [_ Hothers].
    destruct (Hothers y Hvd (Hall y Hvd)) as [_ Hnot]; [done| |].
    - by destruct (tied_catalog_published now x Hxd) as [[-> | ->] _],
        (tied_catalog_published now y Hvd) as [[-> | ->] _].
    - apply Hnot. apply keep_dev; [done|by apply Hall]. }
  assert (published_of c "1.3.0-rc1" = published_of c "1.3.0-rc2") as Htie.
  { unfold c.
    destruct (tied_catalog_published now "1.3.0-rc1") as [_ ->];
      [unfold tied_catalog; rewrite dom_insert_L; set_solver|].
    destruct (tied_catalog_published now "1.3.0-rc2") as [_ ->];
      [unfold tied_catalog; rewrite dom_insert_L, dom_singleton_L; set_solver|].
    done. }
  split.
  - apply (Hfirst elements_order "1.3.0-rc1" "1.3.0-rc2"); [|done].
    unfold dev_sorted, c. cbn [iter_set elements_order].
    rewrite tied_catalog_dev_elements. by apply sorted_reverse_stable_pair.
  - apply (Hfirst reverse_order "1.3.0-rc2" "1.3.0-rc1"); [|done].
    unfold dev_sorted, c. cbn [iter_set reverse_order].
    rewrite tied_catalog_dev_elements. by apply sorted_reverse_stable_pair.
Qed.

(** ** The base version, continued *)

Section base_version.
Import Str.

Lemma append_assoc (a b c : string) : (a ++ b) ++ c = a ++ b ++ c.
Proof.
  induction a as [|x a IH]; [done|]. by rewrite !append_String_l, IH.
Qed.

Lemma span_digits_eq (s : string) :
  s = (span_digits s).1 ++ (span_digits s).2.
Proof.
  induction s as [|c s IH]; [done|].
  cbn [span_digits]. destruct (is_digit c); [|done].
  destruct (span_digits s) as [d r]. cbn [fst snd] in *.
  by rewrite append_String_l, <- IH.
Qed.

Lemma digits1_eq (s d r : string) : digits1 s = Some (d, r) → s = d ++ r.
Proof.
  unfold digits1. pose proof (span_digits_eq s) as Hs.
  destruct (span_digits s) as [[|c d'] r']; [done|]. by intros [= <- <-].
Qed.

Lemma only_digits_all (d : string) :
  only_digits d = true ↔ all_digits d ∧ d ≠ EmptyString.
Proof.
  unfold all_digits. induction d as [|c d IH]; [by split; [|intros [_ []]]|].
  cbn [only_digits span_digits]. destruct d as [|c' d].
  - destruct (is_digit c); cbn; split; try done. by intros [[=] _].
  - destruct (is_digit c); cbn [andb].
    + rewrite IH. destruct (span_digits (String c' d)) as [d' r'].
      split.
      * by intros [[= -> ->] _].
      * intros [[= -> ->] _]. done.
    + split; [done|]. by intros [[=] _].
Qed.

(** What the group of a match is, and where the match ends. *)
Lemma match_base_form (s g : string) :
  match_base s = Some g →
  ∃ d1 d2 d3 rest,
    only_digits d1 = true ∧ only_digits d2 = true ∧ only_digits d3 = true
    ∧ g = d1 ++ "." ++ d2 ++ "." ++ d3
    ∧ s = g ++ rest ∧ no_digit_head rest.
Proof.
  unfold match_base.
  destruct (digits1 s) as [[d1 r1]|] eqn:H1; [|done].
  destruct (dot r1) as [r1'|] eqn:D1; [|done].
  destruct (digits1 r1') as [[d2 r2]|] eqn:H2; [|done].
  destruct (dot r2) as [r2'|] eqn:D2; [|done].
  destruct (digits1 r2') as [[d3 r3]|] eqn:H3; [|done].
  intros [= <-]. exists d1, d2, d3, r3.
  pose proof (digits1_eq _ _ _ H1) as E1.
  pose proof (digits1_eq _ _ _ H2) as E2.
  pose proof (digits1_eq _ _ _ H3) as E3.
  apply digits1_Some in H1 as (A1 & _ & N1).
  apply digits1_Some in H2 as (A2 & _ & N2).
  apply digits1_Some in H3 as (A3 & R3 & N3).
  apply dot_Some in D1, D2. subst.
  split; [by apply only_digits_all|]. split; [by apply only_digits_all|].
  split; [by apply only_digits_all|]. split; [done|]. split; [|done].
  by rewrite !append_assoc, !append_String_l, !append_empty_l.
Qed.

Lemma match_base_complete (d1 d2 d3 rest : string) :
  only_digits d1 = true → only_digits d2 = true → only_digits d3 = true →
  no_digit_head rest →
  match_base (d1 ++ "." ++ d2 ++ "." ++ d3 ++ rest)
  = Some (d1 ++ "." ++ d2 ++ "." ++ d3).
Proof.
  intros [A1 N1]%only_digits_all [A2 N2]%only_digits_all
    [A3 N3]%only_digits_all Hrest.
  unfold match_base.
  rewrite (digits1_app d1 ("." ++ d2 ++ "." ++ d3 ++ rest)) by done.
  rewrite append_String_l, append_empty_l. cbn [dot Ascii.eqb Bool.eqb].
  rewrite (digits1_app d2 ("." ++ d3 ++ rest)) by done.
  rewrite append_String_l, append_empty_l. cbn [dot Ascii.eqb Bool.eqb].
  by rewrite (digits1_app d3 rest).
Qed.

Lemma split_dash_0_idem (s : string) :
  split_dash_0 (split_dash_0 s) = split_dash_0 s.
Proof.
  induction s as [|c s IH]; [done|].
  cbn [split_dash_0]. destruct (Ascii.eqb c "-") eqn:Hc; [done|].
  cbn [split_dash_0]. by rewrite Hc, IH.
Qed.

Lemma split_dash_0_prefix (s : string) : ∃ rest, s = split_dash_0 s ++ rest.
Proof.
  induction s as [|c s [rest IH]]; [by exists ""|].
  cbn [split_dash_0]. destruct (Ascii.eqb c "-").
  - by exists (String c s).
  - exists rest. by rewrite append_String_l, <- IH.
Qed.

End base_version.

Lemma split_dash_0_fixed (s : string) :
  Str.split_dash_0 s = s ↔ Str.contains "-" s = false.
Proof.
  induction s as [|c s IH]; [done|].
  cbn [Str.split_dash_0 Str.contains String.prefix].
  destruct (ascii_dec "-" c) as [<-|Hne].
  - cbn. destruct s; done.
  - assert (Ascii.eqb c "-" = false) as -> by (apply Ascii.eqb_neq; congruence).
    cbn [orb]. rewrite <- IH. split; [by intros [= ->]|by intros ->].
Qed.

(** X7: [extract_base_version] returns a prefix of its argument, and
    applying it to its own result changes nothing. *)
Theorem extract_base_version_prefix_idempotent (s : string) :
  (∃ rest, s = extract_base_version s ++ rest)
  ∧ extract_base_version (extract_base_version s) = extract_base_version s.
Proof.
  unfold extract_base_version at 1 3 4.
  destruct (Str.match_base s) as [g|] eqn:Hs.
  - split.
    + destruct (match_base_form s g Hs) as (_ & _ & _ & rest & _ & _ & _ & _ & Heq & _).
      by exists rest.
    + unfold extract_base_version. by rewrite (match_base_group s g Hs).
  - split; [exists ""; by rewrite append_empty_r|].
    unfold extract_base_version. by rewrite Hs.
Qed.

(** X8: the base that the policy uses, [extract_base_version(v.split('-')[0])],
    is a prefix of the version, and the base of a base is the base itself. *)
Theorem base_of_prefix_idempotent (v : string) :
  (∃ rest, v = base_of v ++ rest) ∧ base_of (base_of v) = base_of v.
Proof.
  rewrite !base_of_match.
  destruct (Str.match_base v) as [g|] eqn:Hv.
  - split.
    + destruct (match_base_form v g Hv) as (_ & _ & _ & rest & _ & _ & _ & _ & Heq & _).
      by exists rest.
    + by rewrite (match_base_group v g Hv).
  - split; [apply split_dash_0_prefix|].
    by rewrite match_base_split_dash_0, Hv, split_dash_0_idem.
Qed.

(** X9: on a string that starts with three groups of digits separated by
    dots, followed by something that does not start with a digit,
    [extract_base_version] returns the three groups. *)
Theorem extract_base_version_three_components (d1 d2 d3 rest : string) :
  only_digits d1 = true → only_digits d2 = true → only_digits d3 = true →
  no_digit_head rest →
  extract_base_version (d1 ++ "." ++ d2 ++ "." ++ d3 ++ rest)
  = d1 ++ "." ++ d2 ++ "." ++ d3.
Proof.
  intros H1 H2 H3 Hrest. unfold extract_base_version.
  by rewrite match_base_complete.
Qed.

Lemma extract_base_version_three_components_witness :
  extract_base_version ("10" ++ "." ++ "2" ++ "." ++ "33" ++ "-rc.1")
  = "10" ++ "." ++ "2" ++ "." ++ "33".
Proof.
  apply (extract_base_version_three_components "10" "2" "33" "-rc.1");
    reflexivity.
Defined.

(** The result of [extract_base_version] is its argument or three
    groups of digits separated by dots. *)
Theorem extract_base_version_result (s : string) :
  extract_base_version s = s
  ∨ ∃ d1 d2 d3,
      only_digits d1 = true ∧ only_digits d2 = true ∧ only_digits d3 = true
      ∧ extract_base_version s = d1 ++ "." ++ d2 ++ "." ++ d3.
Proof.
  unfold extract_base_version.
  destruct (Str.match_base s) as [g|] eqn:Hs; [|by left].
  right. destruct (match_base_form s g Hs) as (d1 & d2 & d3 & _ & ? & ? & ? & ? & _).
  by exists d1, d2, d3.
Qed.

(** X10: the base that [get_versions_to_keep] uses and the base that
    remove-rcs-from-index.py uses are the same for a version, except when
    the version has no three-component numeric prefix and contains a ['-']. *)
Theorem base_of_agrees_with_remove_rcs (v : string) :
  base_of v = RemoveRcsFromIndex.extract_base_version v
  ↔ Str.match_base v ≠ None ∨ Str.contains "-" v = false.
Proof.
  rewrite base_of_match, <- split_dash_0_fixed.
  unfold RemoveRcsFromIndex.extract_base_version.
  destruct (Str.match_base v) as [g|]; [by split; [left|]|].
  split; [by right|]. by intros [?|?].
Qed.

(** ** [sync_releases], continued *)

Section sync_more.
Variable now : datetime.
Variable order : set_iteration.

Lemma combine_fold_lookup (l : list string) (m : gmap string datetime)
    (v : string) :
  fold_left
    (λ combined x,
       if bool_decide (x ∈ dom combined) then combined
       else <[x := index_only_date now]> combined) l m !! v
  = match m !! v with
    | Some t => Some t
    | None => if bool_decide (v ∈ l) then Some (index_only_date now) else None
    end.
Proof.
  revert m. induction l as [|x l IH]; intros m.
  - cbn. by destruct (m !! v).
  - cbn [fold_left]. rewrite IH. clear IH.
    destruct (decide (v = x)) as [->|Hne].
    + rewrite (bool_decide_eq_true_2 (x ∈ x :: l)) by set_solver.
      case_bool_decide as Hx.
      * apply elem_of_dom in Hx as [t Ht]. by rewrite Ht.
      * apply not_elem_of_dom in Hx. by rewrite lookup_insert_eq, Hx.
    + assert (bool_decide (v ∈ x :: l) = bool_decide (v ∈ l)) as ->.
      { apply bool_decide_ext. set_solver. }
      case_bool_decide; [done|]. by rewrite lookup_insert_ne.
Qed.

Lemma combine_lookup_eq (all_releases : gmap string datetime)
    (existing : gset string) (v : string) :
  combine now order all_releases existing !! v
  = match all_releases !! v with
    | Some t => Some t
    | None =>
        if bool_decide (v ∈ existing) then Some (index_only_date now) else None
    end.
Proof.
  unfold combine. rewrite combine_fold_lookup.
  destruct (all_releases !! v); [done|].
  apply (f_equal (λ b : bool, if b then _ else _)).
  apply bool_decide_ext. by rewrite iter_set_perm, elem_of_elements.
Qed.

Lemma combine_dom (all_releases : gmap string datetime) (existing : gset string) :
  dom (combine now order all_releases existing) = dom all_releases ∪ existing.
Proof.
  apply set_eq. intros v.
  rewrite elem_of_union, !elem_of_dom, combine_lookup_eq.
  destruct (all_releases !! v) as [t|] eqn:Hv.
  - split; [left|]; by eexists.
  - case_bool_decide; split.
    + by right.
    + by eexists.
    + by intros [? [=]].
    + intros [[? [=]]|?]; done.
Qed.

Lemma missing_of_NoDup (all_releases : gmap string datetime)
    (existing : gset string) :
  NoDup (missing_of now order all_releases existing).*1.
Proof.
  unfold missing_of. cbv zeta. rewrite <- list_fmap_compose.
  change (fst ∘ (λ v0 : string, (v0, published_of all_releases v0)))
    with (@id string).
  rewrite list_fmap_id. apply NoDup_filter.
  rewrite iter_set_perm. apply NoDup_elements.
Qed.

End sync_more.

(** X11: the catalog that [sync_releases] builds has the versions of the
    feed and those of the index; a version of the feed has the date of the
    feed, and a version that only the index has is dated one year before
    the cutoff. *)
Theorem combine_lookup (now : datetime) (order : set_iteration)
    (all_releases : gmap string datetime) (existing : gset string) :
  dom (combine now order all_releases existing) = dom all_releases ∪ existing
  ∧ ∀ v, combine now order all_releases existing !! v
         = match all_releases !! v with
           | Some t => Some t
           | None =>
               if bool_decide (v ∈ existing)
               then Some (CUTOFF_DATE now - timedelta_days 365)
               else None
           end.
Proof. split; [apply combine_dom|apply combine_lookup_eq]. Qed.

(** X12: in the catalog that [sync_releases] builds, a version that only
    the index has is older than the limit of 14 days: it is never kept as a
    recent dev version. *)
Theorem index_only_version_is_old (now : datetime) (order : set_iteration)
    (all_releases : gmap string datetime) (existing : gset string) (v : string) :
  v ∈ existing → v ∉ dom all_releases →
  max_dev_age < age now (combine now order all_releases existing) v.
Proof.
  intros Hv Hfeed. apply old_iff_age.
  unfold published_of. rewrite combine_lookup_eq.
  apply not_elem_of_dom in Hfeed. rewrite Hfeed, bool_decide_eq_true_2 by done.
  cbn. unfold index_only_date, timedelta_days. lia.
Qed.

Lemma index_only_version_is_old_witness :
  max_dev_age
  < age example_now
      (combine example_now elements_order two_release_feed {[ "0.9.0-rc.1" ]})
      "0.9.0-rc.1".
Proof.
  apply (index_only_version_is_old example_now elements_order two_release_feed
           {[ "0.9.0-rc.1" ]} "0.9.0-rc.1"); by_evaluation.
Defined.

(** [missing] holds no version twice: the charts of a version are
    downloaded at most once in a run. *)
Theorem missing_versions_NoDup (now : datetime) (order : set_iteration)
    (all_releases : gmap string datetime) (existing : gset string) :
  NoDup (missing_of now order all_releases existing).*1.
Proof. apply missing_of_NoDup. Qed.

(** X13: every stable version of the feed, and every dev version of the
    feed whose age is within the limit, is in [missing] when the index does
    not have it. *)
Theorem new_feed_version_is_missing (now : datetime) (order : set_iteration)
    (all_releases : gmap string datetime) (existing : gset string) (v : string) :
  v ∈ dom all_releases → v ∉ existing →
  class_of v = Stable ∨ age now all_releases v ≤ max_dev_age →
  v ∈ (missing_of now order all_releases existing).*1.
Proof.
  intros Hfeed Hnew Hwhy. apply missing_of_versions.
  split; [done|]. split; [|done].
  assert (v ∈ dom (combine now order all_releases existing)) as Hd
    by (rewrite combine_dom; set_solver).
  destruct (class_of v) eqn:Hc.
  - apply elem_of_keep. by left.
  - destruct Hwhy as [?|Hage]; [done|].
    apply kept_final_in_keep.
    apply walk_recent; [by apply elem_of_dev_sorted|].
    apply recent_iff_age. revert Hage. unfold age, published_of.
    rewrite combine_lookup_eq.
    apply elem_of_dom in Hfeed as [t Ht]. by rewrite Ht.
Qed.

Lemma new_feed_version_is_missing_witness :
  "1.0.0" ∈ (missing_of example_now elements_order two_release_feed ∅).*1.
Proof.
  apply (new_feed_version_is_missing example_now elements_order
           two_release_feed ∅ "1.0.0").
  - by_evaluation.
  - by_evaluation.
  - left. reflexivity.
Defined.

(** ** The result of [sync_releases] *)

Section sync_result.
Variable now : datetime.
Variable order : set_iteration.
Variable download_ok : string → string → bool.

Lemma download_charts_files (charts : list string) (v : string)
    (dir : list (string * string)) :
  (download_charts download_ok charts v dir).2
  = (dir ++ downloaded_prefix download_ok charts v)%list.
Proof.
  revert dir. induction charts as [|chart charts IH]; intros dir.
  - cbn. by rewrite app_nil_r.
  - cbn [download_charts downloaded_prefix].
    destruct (download_ok chart v); [|cbn; by rewrite app_nil_r].
    rewrite IH. by rewrite <- app_assoc.
Qed.

Lemma sync_step_downloaded (st : sync_state) (item : string * datetime) :
  downloaded (sync_step download_ok st item)
  = (downloaded st ++ downloaded_prefix download_ok CHARTS item.1)%list.
Proof.
  unfold sync_step.
  pose proof (download_charts_files CHARTS item.1 (downloaded st)) as Hfiles.
  destruct (download_charts download_ok CHARTS item.1 (downloaded st)) as [ok dir].
  cbn [snd] in Hfiles. by destruct ok.
Qed.

Lemma sync_fold_downloaded (missing : list (string * datetime)) (st : sync_state) :
  downloaded (fold_left (sync_step download_ok) missing st)
  = (downloaded st
     ++ concat (downloaded_prefix download_ok CHARTS <$> missing.*1))%list.
Proof.
  revert st. induction missing as [|item missing IH]; intros st.
  - cbn. by rewrite app_nil_r.
  - cbn [fold_left]. rewrite IH, sync_step_downloaded.
    cbn [fmap list_fmap concat]. by rewrite <- app_assoc.
Qed.

(** [sync_releases] in closed form. *)
Lemma sync_releases_eq (all_releases : gmap string datetime)
    (existing : gset string) (helm_ok : bool) :
  let missing := missing_of now order all_releases existing in
  let n := length (versions_added download_ok missing) in
  sync_releases now order all_releases existing download_ok helm_ok
  = match missing with
    | [] => AlreadyInIndex
    | _ =>
        if (0 <? n)%nat then
          if helm_ok then
            SyncDone n (length missing - n)
              (concat (downloaded_prefix download_ok CHARTS <$> missing.*1))
              (Some (Str.join_comma (take n missing.*1)))
          else IndexUpdateFailed
        else SyncDone 0 (length missing) [] None
    end.
Proof.
  intros missing n. unfold sync_releases. fold missing.
  assert (fold_left (sync_step download_ok) missing
            {| added := 0; failed := 0; downloaded := [] |}
          = {| added := n; failed := length missing - n;
               downloaded :=
                 concat (downloaded_prefix download_ok CHARTS <$> missing.*1) |})
    as ->.
  { pose proof (sync_loop_counts download_ok missing
                  {| added := 0; failed := 0; downloaded := [] |}) as [Ha Hboth].
    pose proof (sync_fold_downloaded missing
                  {| added := 0; failed := 0; downloaded := [] |}) as Hfiles.
    destruct (fold_left (sync_step download_ok) missing _) as [a f files].
    cbn [added failed downloaded app] in *. fold n in Ha. f_equal; [done|lia|done]. }
  cbn [added failed downloaded]. rewrite fmap_take. clearbody n.
  destruct missing as [|item rest]; [done|].
  destruct (0 <? n)%nat eqn:Hn; [done|].
  apply Nat.ltb_ge in Hn. assert (n = 0%nat) as -> by lia.
  f_equal; lia.
Qed.

(** When the failures come last, the first [added] versions of [missing]
    are the versions that were added. *)
Lemma take_versions_added (vs : list string) :
  failures_last download_ok vs = true →
  take (length (filter (λ v, fully_downloaded download_ok v = true) vs)) vs
  = filter (λ v, fully_downloaded download_ok v = true) vs.
Proof.
  induction vs as [|v vs IH]; [done|]. cbn [failures_last].
  rewrite filter_cons.
  destruct (fully_downloaded download_ok v) eqn:Hv.
  - intros Hrest. rewrite decide_True by done.
    cbn [length take]. by rewrite IH.
  - intros Hnone. rewrite decide_False by done.
    assert (filter (λ v, fully_downloaded download_ok v = true) vs = []) as ->; [|done].
    clear IH. induction vs as [|w vs IH]; [done|].
    cbn [forallb] in Hnone. apply andb_true_iff in Hnone as [Hw Hnone].
    rewrite filter_cons, decide_False; [by apply IH|].
    by destruct (fully_downloaded download_ok w).
Qed.

End sync_result.

(** X14: a failure does not stop the run.  When [sync_releases] runs to
    its end, every version of [missing] is counted once, as added when all
    its charts were downloaded and as failed otherwise. *)
Theorem sync_counts_every_version (now : datetime) (order : set_iteration)
    (all_releases : gmap string datetime) (existing : gset string)
    (download_ok : string → string → bool) (helm_ok : bool)
    (a f : nat) (files : list (string * string)) (txt : option string) :
  sync_releases now order all_releases existing download_ok helm_ok
  = SyncDone a f files txt →
  a = length (versions_added download_ok
                (missing_of now order all_releases existing))
  ∧ (a + f = length (missing_of now order all_releases existing))%nat.
Proof.
  rewrite sync_releases_eq. cbv zeta.
  pose proof (length_filter (λ v, fully_downloaded download_ok v = true)
                (missing_of now order all_releases existing).*1) as Hle.
  rewrite length_fmap in Hle. fold (versions_added download_ok
    (missing_of now order all_releases existing)) in Hle.
  destruct (missing_of now order all_releases existing) as [|item rest]; [done|].
  revert Hle.
  generalize (length (versions_added download_ok (item :: rest))).
  generalize (length (item :: rest)).
  intros m n Hle. destruct (0 <? n)%nat eqn:Hn.
  - destruct helm_ok; [|done]. intros [= <- <- _ _]. lia.
  - apply Nat.ltb_ge in Hn. intros [= <- <- _ _]. lia.
Qed.

Lemma sync_counts_every_version_witness :
  (1 = length (versions_added fails_1_1_0
                 (missing_of example_now elements_order two_release_feed ∅)))%nat
  ∧ (1 + 1 = length (missing_of example_now elements_order two_release_feed ∅))%nat.
Proof.
  apply (sync_counts_every_version example_now elements_order two_release_feed
           ∅ fails_1_1_0 true 1 1
           [("fleet", "1.0.0"); ("fleet-crd", "1.0.0"); ("fleet-agent", "1.0.0")]
           (Some "1.1.0")).
  vm_compute. reflexivity.
Defined.



(** X16: when no version of [missing] is fully downloaded after one that
    is not, [synced_versions.txt] holds exactly the versions that were
    added, joined by commas. *)
Theorem side_file_right_when_failures_last (now : datetime)
    (order : set_iteration) (all_releases : gmap string datetime)
    (existing : gset string) (download_ok : string → string → bool)
    (helm_ok : bool) (a f : nat) (files : list (string * string))
    (txt : string) :
  failures_last download_ok (missing_of now order all_releases existing).*1 = true →
  sync_releases now order all_releases existing download_ok helm_ok
  = SyncDone a f files (Some txt) →
  txt = Str.join_comma
          (versions_added download_ok (missing_of now order all_releases existing)).
Proof.
  intros Hlast. rewrite sync_releases_eq. cbv zeta.
  pose proof (take_versions_added download_ok _ Hlast) as Htake.
  fold (versions_added download_ok (missing_of now order all_releases existing))
    in Htake.
  destruct (missing_of now order all_releases existing) as [|item rest]; [done|].
  destruct (0 <? _)%nat; [|done].
  destruct helm_ok; [|done]. intros [= _ _ _ <-]. f_equal. exact Htake.
Qed.

Lemma side_file_right_when_failures_last_witness :
  "1.1.0" = Str.join_comma
              (versions_added fails_1_0_0
                 (missing_of example_now elements_order two_release_feed ∅)).
Proof.
  apply (side_file_right_when_failures_last example_now elements_order
           two_release_feed ∅ fails_1_0_0 true 1 1
           [("fleet", "1.1.0"); ("fleet-crd", "1.1.0"); ("fleet-agent", "1.1.0")]).
  - vm_compute. reflexivity.
  - vm_compute. reflexivity.
Defined.

(** X17: [sync_releases] returns early, without any download, exactly when
    the index has every version of the feed that is to be kept. *)
Theorem sync_up_to_date_iff (now : datetime) (order : set_iteration)
    (all_releases : gmap string datetime) (existing : gset string)
    (download_ok : string → string → bool) (helm_ok : bool) :
  sync_releases now order all_releases existing download_ok helm_ok
  = AlreadyInIndex
  ↔ dom all_releases
    ∩ get_versions_to_keep now order (combine now order all_releases existing)
    ⊆ existing.
Proof.
  rewrite sync_releases_eq. cbv zeta.
  assert (missing_of now order all_releases existing = []
          ↔ dom all_releases
            ∩ get_versions_to_keep now order (combine now order all_releases existing)
            ⊆ existing) as <-.
  { split.
    - intros Hnil v [Hfeed Hkeep]%elem_of_intersection.
      destruct (decide (v ∈ existing)) as [|Hnot]; [done|]. exfalso.
      assert (v ∈ (missing_of now order all_releases existing).*1) as Hin
        by by apply missing_of_versions.
      rewrite Hnil in Hin. by apply elem_of_nil in Hin.
    - intros Hsub.
      destruct (missing_of now order all_releases existing) as [|[v t] rest] eqn:Hm;
        [done|]. exfalso.
      assert (v ∈ (missing_of now order all_releases existing).*1) as Hin
        by (rewrite Hm; cbn; by left).
      apply missing_of_versions in Hin as (Hfeed & Hkeep & Hnot).
      apply Hnot, Hsub. by apply elem_of_intersection. }
  destruct (missing_of now order all_releases existing) as [|item rest]; [done|].
  split; [|done]. destruct (0 <? _)%nat; [|done]. by destruct helm_ok.
Qed.

(** X18: helm is run only when some version was fully downloaded, and a
    run of [sync_releases] fails in [update_index] exactly when helm fails
    then. *)
Theorem sync_index_update_failed_iff (now : datetime) (order : set_iteration)
    (all_releases : gmap string datetime) (existing : gset string)
    (download_ok : string → string → bool) (helm_ok : bool) :
  sync_releases now order all_releases existing download_ok helm_ok
  = IndexUpdateFailed
  ↔ helm_ok = false
    ∧ versions_added download_ok (missing_of now order all_releases existing) ≠ [].
Proof.
  rewrite sync_releases_eq. cbv zeta.
  destruct (missing_of now order all_releases existing) as [|item rest].
  { split; [done|]. by intros [_ []]. }
  destruct (versions_added download_ok (item :: rest)) as [|v vs].
  - cbn. split; [done|]. by intros [_ []].
  - cbn [length Nat.ltb Nat.leb]. destruct helm_ok; split; try done.
    by intros [[=] _].
Qed.

(** ** [cleanup_old_versions], continued *)

Section cleanup_more.
Variable now : datetime.
Variable order : set_iteration.

Lemma keep_restrict (order' : set_iteration) (catalog : gmap string datetime) :
  get_versions_to_keep now order'
    (restrict (get_versions_to_keep now order catalog) catalog)
  = get_versions_to_keep now order catalog.
Proof.
  unfold get_versions_to_keep at 1. cbv zeta.
  rewrite second_walk_kept, restrict_stable_versions. reflexivity.
Qed.

Lemma keep_inhabited (catalog : gmap string datetime) (v : string) :
  v ∈ dom catalog → ∃ u, u ∈ get_versions_to_keep now order catalog.
Proof.
  intros Hd.
  destruct (decide (base_of v ∈ stable_bases catalog)) as [Hs|Hs].
  - apply elem_of_stable_bases in Hs as (s & Hsd & Hsc & Hsb).
    exists s. apply elem_of_keep. by left.
  - destruct (class_of v) eqn:Hc.
    + exists v. apply elem_of_keep. by left.
    + destruct (kept_base_exists now order catalog v Hd Hc Hs) as (u & Hu & _).
      exists u. by apply kept_final_in_keep.
Qed.

Lemma version_dates_fold_dom (l : list version_dict) (m : gmap string datetime) :
  dom (fold_left (λ m v, <[version v := parse_created_date v]> m) l m)
  = dom m ∪ index_versions l.
Proof.
  revert m. induction l as [|e l IH]; intros m.
  - cbn. unfold index_versions. cbn. set_solver.
  - cbn [fold_left]. rewrite IH, dom_insert_L. unfold index_versions.
    cbn [fmap list_fmap list_to_set]. set_solver.
Qed.

Lemma version_dates_dom (versions : list version_dict) :
  dom (version_dates versions) = index_versions versions.
Proof.
  unfold version_dates. rewrite version_dates_fold_dom, dom_empty_L. set_solver.
Qed.

Lemma version_dates_fold_filter (K : gset string) (l : list version_dict)
    (m : gmap string datetime) :
  fold_left (λ m v, <[version v := parse_created_date v]> m)
    (filter (λ e, version e ∈ K) l) (restrict K m)
  = restrict K (fold_left (λ m v, <[version v := parse_created_date v]> m) l m).
Proof.
  revert m. induction l as [|e l IH]; intros m; [done|].
  cbn [fold_left]. rewrite <- IH, filter_cons.
  destruct (decide (version e ∈ K)) as [Hin|Hout].
  - cbn [fold_left]. f_equal. unfold restrict.
    by rewrite map_filter_insert_True.
  - f_equal. unfold restrict. by rewrite map_filter_insert_not.
Qed.

Lemma version_dates_filter (K : gset string) (versions : list version_dict) :
  version_dates (filter (λ e, version e ∈ K) versions)
  = restrict K (version_dates versions).
Proof.
  unfold version_dates. rewrite <- version_dates_fold_filter.
  unfold restrict. by rewrite map_filter_empty.
Qed.

(** A chart that has entries keeps some. *)
Lemma cleanup_chart_nonempty (versions : list version_dict) :
  (cleanup_chart now order versions).1 = [] ↔ versions = [].
Proof.
  split; [|by intros ->].
  destruct versions as [|e versions]; [done|]. intros Hnil. exfalso.
  destruct (keep_inhabited (version_dates (e :: versions)) (version e)) as [u Hu].
  { rewrite version_dates_dom. unfold index_versions.
    cbn [fmap list_fmap list_to_set]. set_solver. }
  assert (u ∈ index_versions (cleanup_chart now order (e :: versions)).1) as Hin.
  { apply cleanup_chart_remaining. split; [|done].
    rewrite <- version_dates_dom. revert Hu. apply keep_in_dom. }
  rewrite Hnil in Hin. unfold index_versions in Hin. cbn in Hin.
  by apply not_elem_of_empty in Hin.
Qed.

(** What was kept is kept again, and nothing more is removed. *)
Lemma cleanup_chart_again (versions : list version_dict) :
  cleanup_chart now order (cleanup_chart now order versions).1
  = ((cleanup_chart now order versions).1, []).
Proof.
  set (K := get_versions_to_keep now order (version_dates versions)).
  assert ((cleanup_chart now order versions).1
          = filter (λ e, version e ∈ K) versions) as -> by done.
  assert (get_versions_to_keep now order
            (version_dates (filter (λ e, version e ∈ K) versions)) = K) as HK.
  { rewrite version_dates_filter. apply keep_restrict. }
  assert ((cleanup_chart now order (filter (λ e, version e ∈ K) versions)).1
          = filter (λ e, version e ∈ K) versions) as Hkept.
  { rewrite cleanup_chart_kept, HK. by apply list_filter_filter_l. }
  apply injective_projections; [done|].
  change ((cleanup_chart now order (filter (λ e, version e ∈ K) versions)).2)
    with (version <$> filter
            (λ e, e ∉ (cleanup_chart now order
                         (filter (λ e, version e ∈ K) versions)).1)
            (filter (λ e, version e ∈ K) versions)).
  rewrite Hkept. cbn [snd].
  assert (filter (λ e, e ∉ filter (λ e, version e ∈ K) versions)
            (filter (λ e, version e ∈ K) versions) = []) as ->; [|done].
  generalize (filter (λ e, version e ∈ K) versions). intros l.
  assert (∀ l', (∀ x, x ∈ l' → x ∈ l) → filter (λ e, e ∉ l) l' = []) as Hall.
  { induction l' as [|x l' IH]; intros Hsub; [done|].
    rewrite filter_cons, decide_False; [apply IH; set_solver|].
    intros Hnot. apply Hnot, Hsub. by left. }
  by apply Hall.
Qed.

Lemma cleanup_step_entries (st : cleanup_state) (item : string * list version_dict) :
  entries (cleanup_step now order st item)
  = (entries st
     ++ if decide (item.2 = []) then []
        else [(item.1, (cleanup_chart now order item.2).1)])%list.
Proof.
  unfold cleanup_step.
  pose proof (cleanup_chart_nonempty item.2) as Hne.
  destruct (cleanup_chart now order item.2) as [kept removed]. cbn [fst entries] in *.
  destruct kept as [|e kept].
  - rewrite decide_True by by apply Hne. by rewrite app_nil_r.
  - rewrite decide_False; [done|]. intros Heq. by apply Hne in Heq.
Qed.

Lemma cleanup_fold_eq (data_entries : list (string * list version_dict))
    (st : cleanup_state) :
  fold_left (cleanup_step now order) data_entries st
  = {| entries :=
         entries st
         ++ ((λ item, (item.1, (cleanup_chart now order item.2).1))
               <$> filter (λ item, item.2 ≠ []) data_entries);
       removed_versions :=
         removed_versions st
         ++ concat ((λ item, (cleanup_chart now order item.2).2) <$> data_entries) |}.
Proof.
  revert st. induction data_entries as [|item data IH]; intros st.
  - cbn. rewrite !app_nil_r. by destruct st.
  - cbn [fold_left]. rewrite IH, cleanup_step_entries, cleanup_step_removed.
    rewrite filter_cons. cbn [fmap list_fmap concat].
    destruct (decide (item.2 = [])) as [Hnil|Hne].
    + rewrite decide_False by (by intros ?). rewrite !app_nil_r.
      by rewrite <- app_assoc.
    + rewrite decide_True by done. cbn [fmap list_fmap].
      by rewrite <- !app_assoc.
Qed.

End cleanup_more.

(** X19: [cleanup_old_versions] deletes a chart only when its list was
    empty before the run.  The charts written back are the charts that had
    entries, in the order of the file, each with the entries whose version
    is kept, and none of these lists is empty. *)
Theorem cleanup_keeps_every_chart (now : datetime) (order : set_iteration)
    (data_entries : list (string * list version_dict)) :
  (cleanup_old_versions now order data_entries).1
  = ((λ item, (item.1, (cleanup_chart now order item.2).1))
       <$> filter (λ item, item.2 ≠ []) data_entries)
  ∧ ∀ item, item ∈ (cleanup_old_versions now order data_entries).1 → item.2 ≠ [].
Proof.
  assert ((cleanup_old_versions now order data_entries).1
          = ((λ item, (item.1, (cleanup_chart now order item.2).1))
               <$> filter (λ item, item.2 ≠ []) data_entries)) as Heq.
  { unfold cleanup_old_versions, cleanup_loop. cbv zeta. cbn [fst].
    by rewrite cleanup_fold_eq. }
  split; [done|]. rewrite Heq. intros item Hin.
  apply list_elem_of_fmap in Hin as (item0 & -> & [Hne _]%list_elem_of_filter).
  cbn [snd]. by rewrite cleanup_chart_nonempty.
Qed.

(** The entries that a run wrote are a fixed point of the loop. *)
Lemma cleanup_keeps_every_chart_aux (now : datetime) (order : set_iteration)
    (data_entries : list (string * list version_dict)) :
  ((λ item, (item.1, (cleanup_chart now order item.2).1))
     <$> filter (λ item, item.2 ≠ [])
           (cleanup_old_versions now order data_entries).1)
  = (cleanup_old_versions now order data_entries).1
  ∧ concat ((λ item, (cleanup_chart now order item.2).2)
              <$> (cleanup_old_versions now order data_entries).1) = [].
Proof.
  assert ((cleanup_old_versions now order data_entries).1
          = ((λ item, (item.1, (cleanup_chart now order item.2).1))
               <$> filter (λ item, item.2 ≠ []) data_entries)) as ->.
  { unfold cleanup_old_versions, cleanup_loop. cbv zeta. cbn [fst].
    by rewrite cleanup_fold_eq. }
  induction data_entries as [|item data [IH1 IH2]]; [done|].
  rewrite filter_cons. destruct (decide (item.2 ≠ [])) as [Hne|Hnil]; [|done].
  cbn [fmap list_fmap concat]. rewrite filter_cons.
  rewrite decide_True by (cbn [snd]; by rewrite cleanup_chart_nonempty).
  cbn [fmap list_fmap fst snd]. rewrite cleanup_chart_again. cbn [fst snd app].
  split; [|done]. f_equal. exact IH1.
Qed.

(** X20: [cleanup_old_versions] is idempotent on the index: a second run
    on the entries that the first run wrote writes the same entries, removes
    nothing and writes no [removed_versions.txt]. *)
Theorem cleanup_old_versions_idempotent (now : datetime) (order : set_iteration)
    (data_entries : list (string * list version_dict)) :
  cleanup_old_versions now order (cleanup_old_versions now order data_entries).1
  = ((cleanup_old_versions now order data_entries).1, None).
Proof.
  destruct (cleanup_keeps_every_chart_aux now order data_entries) as [Hfix Hnone].
  unfold cleanup_old_versions at 1, cleanup_loop. cbv zeta.
  rewrite cleanup_fold_eq. cbn [entries removed_versions app].
  by rewrite Hfix, Hnone.
Qed.

(** ** [fetch_releases] *)

Section fetch.
Import Str.

Lemma lstrip_v_no_v (s : string) : String.prefix "v" (lstrip_v s) = false.
Proof.
  induction s as [|c s IH]; [done|].
  cbn [lstrip_v]. destruct (Ascii.eqb c "v") eqn:Hc; [done|].
  cbn [String.prefix]. destruct (ascii_dec "v" c) as [<-|]; [|done].
  by rewrite Ascii.eqb_refl in Hc.
Qed.

Lemma lstrip_v_suffix (s : string) : ∃ pre, s = pre ++ lstrip_v s.
Proof.
  induction s as [|c s [pre IH]]; [by exists ""|].
  cbn [lstrip_v]. destruct (Ascii.eqb c "v").
  - exists (String c pre). by rewrite append_String_l, <- IH.
  - by exists "".
Qed.

Lemma lower_app (a b : string) : lower (a ++ b) = lower a ++ lower b.
Proof.
  induction a as [|c a IH]; [done|].
  rewrite append_String_l. cbn [lower]. by rewrite IH, append_String_l.
Qed.

Lemma contains_app_r (p a b : string) :
  contains p b = true → contains p (a ++ b) = true.
Proof.
  intros Hb. induction a as [|c a IH]; [done|].
  rewrite append_String_l. cbn [contains]. rewrite IH. apply orb_true_r.
Qed.

Lemma tag_included_lstrip_v (tag : string) :
  tag_included tag = true → tag_included (lstrip_v tag) = true.
Proof.
  unfold tag_included. destruct (lstrip_v_suffix tag) as [pre Heq].
  rewrite Heq at 1 2. rewrite lower_app.
  intros [H1 H2]%andb_true_iff. apply andb_true_iff. split.
  - destruct (contains "experiment" (lower (lstrip_v tag))) eqn:Hc; [|done].
    by rewrite (contains_app_r _ (lower pre)) in H1.
  - destruct (contains "hotfix" (lower (lstrip_v tag))) eqn:Hc; [|done].
    by rewrite (contains_app_r _ (lower pre)) in H2.
Qed.

End fetch.

Section fetch_fold.

Abbreviation fetch_step :=
  (λ (releases : gmap string datetime) (r : release),
     if tag_included (tag_name r)
     then <[Str.lstrip_v (tag_name r) := published_at r]> releases
     else releases).

Lemma fetch_fold_dom (response : list release) (m : gmap string datetime)
    (k : string) :
  k ∈ dom (fold_left fetch_step response m)
  ↔ k ∈ dom m
    ∨ ∃ r, r ∈ response ∧ tag_included (tag_name r) = true
           ∧ Str.lstrip_v (tag_name r) = k.
Proof.
  revert m. induction response as [|r response IH]; intros m.
  - cbn. split; [by left|]. intros [?|(r & Hr & _)]; [done|].
    by apply elem_of_nil in Hr.
  - cbn [fold_left]. rewrite IH. clear IH.
    destruct (tag_included (tag_name r)) eqn:Hinc.
    + rewrite dom_insert_L, elem_of_union, elem_of_singleton. split.
      * intros [[->|?]|(r' & Hr' & ?)]; [|by left|].
        -- right. exists r. split; [by left|done].
        -- right. exists r'. split; [by right|done].
      * intros [?|(r' & [->|Hr']%elem_of_cons & Hi & Hk)]; [by left; right| |].
        -- by left; left.
        -- right. by exists r'.
    + split.
      * intros [?|(r' & Hr' & ?)]; [by left|]. right. exists r'.
        split; [by right|done].
      * intros [?|(r' & [->|Hr']%elem_of_cons & Hi & Hk)]; [by left|congruence|].
        right. by exists r'.
Qed.

Lemma fetch_fold_untouched (response : list release) (m : gmap string datetime)
    (k : string) :
  (∀ r, r ∈ response → tag_included (tag_name r) = true →
        Str.lstrip_v (tag_name r) ≠ k) →
  fold_left fetch_step response m !! k = m !! k.
Proof.
  revert m. induction response as [|r response IH]; intros m Hno; [done|].
  cbn [fold_left]. rewrite IH by (intros r' Hr'; apply Hno; by right).
  destruct (tag_included (tag_name r)) eqn:Hinc; [|done].
  rewrite lookup_insert_ne; [done|]. apply Hno; [by left|done].
Qed.

End fetch_fold.

(** X21: the versions that [fetch_releases] returns are the tags of the
    releases whose tag, in lower case, contains neither ["experiment"] nor
    ["hotfix"], without their leading ['v'] characters. *)
Theorem fetch_releases_versions (response : list release) (k : string) :
  k ∈ dom (fetch_releases response)
  ↔ ∃ r, r ∈ response ∧ tag_included (tag_name r) = true
         ∧ Str.lstrip_v (tag_name r) = k.
Proof.
  unfold fetch_releases. rewrite fetch_fold_dom, dom_empty_L. set_solver.
Qed.

(** X22: when several releases give the same version, the date is that of
    the last of them in the response. *)
Theorem fetch_releases_last_wins (earlier later : list release) (r : release) :
  tag_included (tag_name r) = true →
  (∀ r', r' ∈ later → tag_included (tag_name r') = true →
         Str.lstrip_v (tag_name r') ≠ Str.lstrip_v (tag_name r)) →
  fetch_releases (earlier ++ r :: later) !! Str.lstrip_v (tag_name r)
  = Some (published_at r).
Proof.
  intros Hinc Hlater. unfold fetch_releases.
  rewrite fold_left_app. cbn [fold_left].
  rewrite fetch_fold_untouched by done.
  by rewrite Hinc, lookup_insert_eq.
Qed.

Lemma fetch_releases_last_wins_witness :
  fetch_releases ([Release "v1.0.0" 5] ++ Release "1.0.0" 7 :: [Release "v1.1.0" 9])
    !! Str.lstrip_v (tag_name (Release "1.0.0" 7))
  = Some (published_at (Release "1.0.0" 7)).
Proof.
  apply (fetch_releases_last_wins [Release "v1.0.0" 5] [Release "v1.1.0" 9]
           (Release "1.0.0" 7)).
  - reflexivity.
  - intros r' Hr' _. apply list_elem_of_singleton in Hr'. by subst r'.
Defined.

Lemma fetch_releases_versions_aux (response : list release) (k : string) :
  k ∈ dom (fetch_releases response)
  → ∃ r, r ∈ response ∧ tag_included (tag_name r) = true
         ∧ Str.lstrip_v (tag_name r) = k.
Proof.
  unfold fetch_releases. rewrite fetch_fold_dom, dom_empty_L. set_solver.
Qed.

(** X23: no version that [fetch_releases] returns starts with ['v'], and
    none contains ["experiment"] or ["hotfix"] in any letter case. *)
Theorem fetch_releases_keys_clean (response : list release) (k : string) :
  k ∈ dom (fetch_releases response) →
  String.prefix "v" k = false ∧ tag_included k = true.
Proof.
  intros (r & _ & Hinc & <-)%fetch_releases_versions_aux.
  split; [apply lstrip_v_no_v|by apply tag_included_lstrip_v].
Qed.

Lemma fetch_releases_keys_clean_witness :
  String.prefix "v" "0.9.0-rc.1" = false ∧ tag_included "0.9.0-rc.1" = true.
Proof.
  apply (fetch_releases_keys_clean
           [Release "v1.0.0" 5; Release "v1.1.0-Experiment" 6;
            Release "vv0.9.0-rc.1" 9]).
  by_evaluation.
Defined.

(** ** remove-rcs-from-index.py, continued *)

Section max_by_facts.
Context {A : Type} (key : A → Z).

Lemma max_by_in (x : A) (l : list A) : max_by key x l ∈ x :: l.
Proof.
  revert x. induction l as [|y l IH]; intros x; [by left|].
  cbn [max_by fold_left]. fold (max_by key (if key x <? key y then y else x) l).
  specialize (IH (if key x <? key y then y else x)).
  apply elem_of_cons in IH as [->|IH].
  - destruct (key x <? key y); [right; by left|by left].
  - right. by right.
Qed.

Lemma max_by_ge_start (x : A) (l : list A) : key x ≤ key (max_by key x l).
Proof.
  revert x. induction l as [|y l IH]; intros x; [cbn; lia|].
  cbn [max_by fold_left]. fold (max_by key (if key x <? key y then y else x) l).
  specialize (IH (if key x <? key y then y else x)).
  destruct (key x <? key y) eqn:Hlt; [apply Z.ltb_lt in Hlt|]; lia.
Qed.

Lemma max_by_max (x : A) (l : list A) (y : A) :
  y ∈ x :: l → key y ≤ key (max_by key x l).
Proof.
  revert x. induction l as [|z l IH]; intros x.
  - intros ->%list_elem_of_singleton. cbn. lia.
  - cbn [max_by fold_left]. fold (max_by key (if key x <? key z then z else x) l).
    intros [->|[->|Hy]%elem_of_cons]%elem_of_cons.
    + pose proof (max_by_ge_start (if key x <? key z then z else x) l) as Hge.
      destruct (key x <? key z) eqn:Hlt; [apply Z.ltb_lt in Hlt|]; lia.
    + pose proof (max_by_ge_start (if key x <? key z then z else x) l) as Hge.
      destruct (key x <? key z) eqn:Hlt; [|apply Z.ltb_ge in Hlt]; lia.
    + apply IH. by right.
Qed.

Lemma max_by_all_eq (x : A) (l : list A) :
  (∀ y, y ∈ l → y = x) → max_by key x l = x.
Proof.
  induction l as [|y l IH]; intros Hall; [done|].
  cbn [max_by fold_left]. rewrite (Hall y) by by left.
  rewrite Z.ltb_irrefl. apply IH. intros z Hz. apply Hall. by right.
Qed.

End max_by_facts.

Section filter_facts.
Context {A : Type} (P : A → Prop) `{!∀ x, Decision (P x)}.

Lemma filter_all (l : list A) : (∀ x, x ∈ l → P x) → filter P l = l.
Proof.
  induction l as [|x l IH]; intros Hall; [done|].
  rewrite filter_cons, decide_True by (apply Hall; by left).
  f_equal. apply IH. intros y Hy. apply Hall. by right.
Qed.

Lemma filter_none (l : list A) : (∀ x, x ∈ l → ¬ P x) → filter P l = [].
Proof.
  induction l as [|x l IH]; intros Hall; [done|].
  rewrite filter_cons, decide_False by (apply Hall; by left).
  apply IH. intros y Hy. apply Hall. by right.
Qed.

Lemma filter_nil_none (l : list A) (x : A) : filter P l = [] → x ∈ l → ¬ P x.
Proof.
  intros Hnil Hx HP.
  assert (x ∈ filter P l) as Hin by by apply list_elem_of_filter.
  rewrite Hnil in Hin. by apply elem_of_nil in Hin.
Qed.

End filter_facts.

Section remove_rcs_more.
Import RemoveRcsFromIndex.
Variable now : datetime.

Abbreviation kept := (kept_versions now).
Abbreviation old_entry := (λ v : version_dict, is_old v (cutoff_date now) = true).
Abbreviation recent_entry := (λ v : version_dict, is_old v (cutoff_date now) = false).

(** The rule on a chart that has a final version. *)
Lemma rr_with_finals (versions : list version_dict) (f : version_dict)
    (fs : list version_dict) :
  filter (λ v, is_dev_version v = false) versions = f :: fs →
  kept versions
  = filter
      (λ v, (is_dev_version v = false) ∨
            ((extract_base_version (version v)
              ∉ (list_to_set ((λ v, extract_base_version (version v)) <$> (f :: fs))
                 : gset string))
             ∧ (is_old v (cutoff_date now) = false)))
      versions.
Proof. intros Hfin. unfold kept_versions. cbv zeta. by rewrite Hfin. Qed.

(** The rule on a chart that has dev versions only. *)
Lemma rr_no_finals (versions : list version_dict) :
  (∀ e, e ∈ versions → is_dev_version e = true) →
  kept versions
  = match filter old_entry versions with
    | first :: rest =>
        filter (λ v, v ∈ filter recent_entry versions
                     ∨ v = max_by parse_created_date first rest) versions
    | [] => filter recent_entry versions
    end.
Proof.
  intros Hdev. unfold kept_versions. cbv zeta.
  rewrite (filter_none (λ v, is_dev_version v = false)); cycle 1.
  { intros e He. rewrite (Hdev e He). done. }
  by rewrite (filter_all (λ v, is_dev_version v = true)).
Qed.

Lemma rr_all_dev (versions : list version_dict) :
  filter (λ v, is_dev_version v = false) versions = [] →
  ∀ e, e ∈ versions → is_dev_version e = true.
Proof.
  intros Hnil e He. apply (filter_nil_none _ _ e) in Hnil; [|done].
  cbn beta in Hnil. by destruct (is_dev_version e).
Qed.

Lemma rr_kept_sublist (versions : list version_dict) :
  kept versions `sublist_of` versions.
Proof.
  destruct (filter (λ v, is_dev_version v = false) versions) as [|f fs] eqn:Hfin.
  - rewrite (rr_no_finals versions (rr_all_dev versions Hfin)).
    destruct (filter old_entry versions); apply sublist_filter.
  - rewrite (rr_with_finals versions f fs Hfin). apply sublist_filter.
Qed.

Lemma rr_kept_elem (versions : list version_dict) (e : version_dict) :
  e ∈ kept versions → e ∈ versions.
Proof. intros He. exact (elem_of_sublist _ _ _ He (rr_kept_sublist versions)). Qed.

Lemma rr_final_kept (versions : list version_dict) (e : version_dict) :
  e ∈ versions → is_dev_version e = false → e ∈ kept versions.
Proof.
  intros He Hfinal.
  destruct (filter (λ v, is_dev_version v = false) versions) as [|f fs] eqn:Hfin.
  - pose proof (rr_all_dev versions Hfin e He). congruence.
  - rewrite (rr_with_finals versions f fs Hfin).
    apply list_elem_of_filter. split; [by left|done].
Qed.

Lemma rr_nonempty (versions : list version_dict) :
  versions ≠ [] → kept versions ≠ [].
Proof.
  intros Hne Hnil.
  destruct (filter (λ v, is_dev_version v = false) versions) as [|f fs] eqn:Hfin.
  - pose proof (rr_all_dev versions Hfin) as Hdev.
    rewrite (rr_no_finals versions Hdev) in Hnil.
    destruct (filter old_entry versions) as [|first rest] eqn:Hold.
    + destruct versions as [|e versions]; [done|].
      apply (filter_nil_none _ _ e) in Hnil; [|by left]. apply Hnil.
      apply (filter_nil_none _ _ e) in Hold; [|by left].
      cbn beta in Hold. by destruct (is_old e (cutoff_date now)).
    + pose proof (max_by_in parse_created_date first rest) as Hin.
      rewrite <- Hold in Hin. apply list_elem_of_filter in Hin as [_ Hin].
      apply (filter_nil_none _ _ _ Hnil Hin). by right.
  - assert (f ∈ filter (λ v, is_dev_version v = false) versions) as Hf
      by (rewrite Hfin; by left).
    apply list_elem_of_filter in Hf as [Hfinal Hf].
    pose proof (rr_final_kept versions f Hf Hfinal) as Hin.
    rewrite Hnil in Hin. by apply elem_of_nil in Hin.
Qed.

Lemma rr_idempotent (versions : list version_dict) :
  kept (kept versions) = kept versions.
Proof.
  destruct (filter (λ v, is_dev_version v = false) versions) as [|f fs] eqn:Hfin.
  - pose proof (rr_all_dev versions Hfin) as Hdev.
    assert (∀ e, e ∈ kept versions → is_dev_version e = true) as Hdev'
      by (intros e He; by apply Hdev, rr_kept_elem).
    rewrite (rr_no_finals (kept versions) Hdev').
    rewrite (rr_no_finals versions Hdev) in *.
    destruct (filter old_entry versions) as [|first rest] eqn:Hold.
    + rewrite (filter_none old_entry); [by apply list_filter_filter_l|].
      intros e [He _]%list_elem_of_filter. congruence.
    + set (latest := max_by parse_created_date first rest).
      assert (latest ∈ versions ∧ old_entry latest) as [Hlv Hlo].
      { pose proof (max_by_in parse_created_date first rest) as Hin.
        rewrite <- Hold in Hin. apply list_elem_of_filter in Hin. tauto. }
      set (K := filter (λ v, v ∈ filter recent_entry versions ∨ v = latest) versions).
      assert (∀ v, v ∈ filter old_entry K → v = latest) as Honly.
      { intros v Hv. apply list_elem_of_filter in Hv as [Hvo Hv].
        apply list_elem_of_filter in Hv as [[Hr|Heq] _]; [|done].
        apply list_elem_of_filter in Hr as [Hvr _]. congruence. }
      assert (latest ∈ filter old_entry K) as Hin.
      { apply list_elem_of_filter. split; [done|].
        apply list_elem_of_filter. split; [by right|done]. }
      destruct (filter old_entry K) as [|first' rest'] eqn:HoldK;
        [by apply elem_of_nil in Hin|].
      assert (first' = latest) as -> by (apply Honly; by left).
      rewrite max_by_all_eq by (intros y Hy; apply Honly; by right).
      apply filter_all.
      intros v Hv. pose proof Hv as Hv'.
      apply list_elem_of_filter in Hv' as [[Hr|Heq] Hvv]; [|by right].
      left. apply list_elem_of_filter. split; [|done].
      by apply list_elem_of_filter in Hr as [Hr _].
  - rewrite (rr_with_finals versions f fs Hfin).
    rewrite (rr_with_finals _ f fs).
    + apply list_filter_filter_l. tauto.
    + rewrite <- Hfin. apply list_filter_filter_l. intros x Hx. by left.
Qed.

End remove_rcs_more.

(** X24: the rule of remove-rcs-from-index.py keeps entries of the chart
    only, in their order, and keeps every final version. *)
Theorem remove_rcs_keeps_finals (now : datetime) (versions : list version_dict) :
  RemoveRcsFromIndex.kept_versions now versions `sublist_of` versions
  ∧ ∀ e, e ∈ versions → RemoveRcsFromIndex.is_dev_version e = false →
         e ∈ RemoveRcsFromIndex.kept_versions now versions.
Proof. split; [apply rr_kept_sublist|apply rr_final_kept]. Qed.

(** X25: the rule of remove-rcs-from-index.py never empties a chart: a
    chart that has entries keeps at least one, so the script deletes a chart
    only when its list was empty. *)
Theorem remove_rcs_never_empties (now : datetime) (versions : list version_dict) :
  versions ≠ [] → RemoveRcsFromIndex.kept_versions now versions ≠ [].
Proof. apply rr_nonempty. Qed.

Lemma remove_rcs_never_empties_witness :
  RemoveRcsFromIndex.kept_versions example_now dev_only_chart ≠ [].
Proof. apply (remove_rcs_never_empties example_now dev_only_chart). discriminate. Defined.

(** X26: the rule of remove-rcs-from-index.py is idempotent: applied to
    the entries it kept, it keeps all of them. *)
Theorem remove_rcs_idempotent (now : datetime) (versions : list version_dict) :
  RemoveRcsFromIndex.kept_versions now
    (RemoveRcsFromIndex.kept_versions now versions)
  = RemoveRcsFromIndex.kept_versions now versions.
Proof. apply rr_idempotent. Qed.

(** X27: on a chart without a final version the rule of
    remove-rcs-from-index.py keeps every recent dev entry; the old entries
    it keeps are all the same entry, one whose date no old entry of the
    chart exceeds; and it keeps an old entry when the chart has one. *)
Theorem remove_rcs_dev_only_chart (now : datetime) (versions : list version_dict) :
  (∀ e, e ∈ versions → RemoveRcsFromIndex.is_dev_version e = true) →
  let old e := RemoveRcsFromIndex.is_old e (RemoveRcsFromIndex.cutoff_date now) in
  (∀ e, e ∈ versions → old e = false →
        e ∈ RemoveRcsFromIndex.kept_versions now versions)
  ∧ (∀ e e', e ∈ RemoveRcsFromIndex.kept_versions now versions → old e = true →
       (e' ∈ RemoveRcsFromIndex.kept_versions now versions → old e' = true → e' = e)
       ∧ (e' ∈ versions → old e' = true → created e' ≤ created e))
  ∧ ((∃ e, e ∈ versions ∧ old e = true) →
     ∃ e, e ∈ RemoveRcsFromIndex.kept_versions now versions ∧ old e = true).
Proof.
  intros Hdev old. subst old. cbv beta. rewrite (rr_no_finals now versions Hdev).
  destruct (filter (λ v, RemoveRcsFromIndex.is_old v (RemoveRcsFromIndex.cutoff_date now) = true) versions) as [|first rest] eqn:Hold.
  - split; [|split].
    + intros e He Hrecent. by apply list_elem_of_filter.
    + intros e e' [Hrecent _]%list_elem_of_filter Hisold. congruence.
    + intros (e & He & Hisold). exfalso.
      by apply (filter_nil_none (λ v, RemoveRcsFromIndex.is_old v (RemoveRcsFromIndex.cutoff_date now) = true) versions e Hold He).
  - set (latest := max_by RemoveRcsFromIndex.parse_created_date first rest).
    assert (latest ∈ versions ∧ RemoveRcsFromIndex.is_old latest (RemoveRcsFromIndex.cutoff_date now) = true) as [Hlv Hlo].
    { pose proof (max_by_in RemoveRcsFromIndex.parse_created_date first rest) as Hin.
      rewrite <- Hold in Hin. apply list_elem_of_filter in Hin. tauto. }
    assert (∀ e, e ∈ filter (λ v, v ∈ filter (λ v, RemoveRcsFromIndex.is_old v (RemoveRcsFromIndex.cutoff_date now) = false) versions
                                   ∨ v = latest) versions →
                 RemoveRcsFromIndex.is_old e (RemoveRcsFromIndex.cutoff_date now) = true → e = latest) as Honly.
    { intros e He Hisold. apply list_elem_of_filter in He as [[Hr|Heq] _]; [|done].
      apply list_elem_of_filter in Hr as [Hr _]. congruence. }
    split; [|split].
    + intros e He Hrecent. apply list_elem_of_filter. split; [|done].
      left. by apply list_elem_of_filter.
    + intros e e' He Hisold. rewrite (Honly e He Hisold). split.
      * intros He' Hisold'. by apply Honly.
      * intros He' Hisold'.
        apply (max_by_max RemoveRcsFromIndex.parse_created_date first rest e').
        rewrite <- Hold. by apply list_elem_of_filter.
    + intros _. exists latest. split; [|done].
      apply list_elem_of_filter. split; [by right|done].
Qed.

Lemma remove_rcs_dev_only_chart_dev (e : version_dict) :
  e ∈ dev_only_chart → RemoveRcsFromIndex.is_dev_version e = true.
Proof.
  unfold dev_only_chart. intros [->|He]%elem_of_cons; [reflexivity|].
  apply list_elem_of_singleton in He. by subst e.
Qed.

Lemma remove_rcs_dev_only_chart_witness :
  ∃ e, e ∈ RemoveRcsFromIndex.kept_versions example_now dev_only_chart
       ∧ RemoveRcsFromIndex.is_old e (RemoveRcsFromIndex.cutoff_date example_now)
         = true.
Proof.
  apply (remove_rcs_dev_only_chart example_now dev_only_chart
           remove_rcs_dev_only_chart_dev).
  eexists. split; [by left|reflexivity].
Defined.

(** X28: once the chart has a final version, the rule of
    remove-rcs-from-index.py keeps a dev entry only when it is recent and no
    final version of the chart has its base. *)
Theorem remove_rcs_dev_beside_final (now : datetime)
    (versions : list version_dict) (f e : version_dict) :
  f ∈ versions → RemoveRcsFromIndex.is_dev_version f = false →
  RemoveRcsFromIndex.is_dev_version e = true →
  e ∈ RemoveRcsFromIndex.kept_versions now versions
  ↔ e ∈ versions
    ∧ RemoveRcsFromIndex.is_old e (RemoveRcsFromIndex.cutoff_date now) = false
    ∧ ∀ f', f' ∈ versions → RemoveRcsFromIndex.is_dev_version f' = false →
            RemoveRcsFromIndex.extract_base_version (version f')
            ≠ RemoveRcsFromIndex.extract_base_version (version e).
Proof.
  intros Hf Hfinal Hdev.
  destruct (filter (λ v, RemoveRcsFromIndex.is_dev_version v = false) versions)
    as [|f0 fs] eqn:Hfin.
  { by destruct (filter_nil_none
                   (λ v, RemoveRcsFromIndex.is_dev_version v = false)
                   versions f Hfin Hf). }
  rewrite (rr_with_finals now versions f0 fs Hfin), list_elem_of_filter.
  rewrite <- Hfin. rewrite elem_of_list_to_set, list_elem_of_fmap.
  split.
  - intros [[?|[Hbase Hrecent]] He]; [congruence|].
    split; [done|]. split; [done|].
    intros f' Hf' Hfinal' Heq. apply Hbase. exists f'. split; [done|].
    by apply list_elem_of_filter.
  - intros (He & Hrecent & Hbase). split; [|done]. right. split; [|done].
    intros (f' & Heq & [Hfinal' Hf']%list_elem_of_filter).
    by apply (Hbase f' Hf' Hfinal').
Qed.

Lemma remove_rcs_dev_beside_final_witness :
  {| version := "1.1.0-rc1"; appVersion := Some "1.1.0-rc1";
     created := example_now - timedelta_days 30 |}
  ∉ RemoveRcsFromIndex.kept_versions example_now (released_and_old_dev example_now).
Proof.
  intros Hin.
  apply (remove_rcs_dev_beside_final example_now (released_and_old_dev example_now)
           {| version := "1.0.0"; appVersion := Some "1.0.0"; created := example_now |})
    in Hin as (_ & Hrecent & _).
  - discriminate Hrecent.
  - by left.
  - reflexivity.
  - reflexivity.
Defined.

(** ** sync-fleet-releases.py *)

Section substrings.
Import Str.

Lemma prefix_app_l (p y s : string) :
  String.prefix (p ++ y) s = true → String.prefix p s = true.
Proof.
  revert s. induction p as [|c p IH]; intros s; [by destruct s|].
  rewrite append_String_l. destruct s as [|d s]; [done|].
  cbn [String.prefix]. destruct (ascii_dec c d); [apply IH|done].
Qed.

Lemma prefix_contains (q s : string) :
  String.prefix q s = true → contains q s = true.
Proof. intros Hp. destruct s; cbn [contains]; by rewrite Hp. Qed.

Lemma contains_cons (q : string) (d : ascii) (s : string) :
  contains q s = true → contains q (String d s) = true.
Proof. intros Hc. cbn [contains]. rewrite Hc. apply orb_true_r. Qed.

Lemma prefix_app_contains (x q s : string) :
  String.prefix (x ++ q) s = true → contains q s = true.
Proof.
  revert s. induction x as [|c x IH]; intros s.
  - rewrite append_empty_l. apply prefix_contains.
  - rewrite append_String_l. destruct s as [|d s]; [done|].
    cbn [String.prefix]. destruct (ascii_dec c d); [|done].
    intros Hp. apply contains_cons. by apply IH.
Qed.

(** A string that contains [x ++ q ++ y] contains [q]. *)
Lemma contains_middle (x q y s : string) :
  contains (x ++ q ++ y) s = true → contains q s = true.
Proof.
  induction s as [|d s IH]; cbn [contains].
  - rewrite orb_false_r. intros Hp. apply prefix_app_contains in Hp.
    destruct (String.prefix (q ++ y) "") eqn:Hq.
    + apply prefix_app_l in Hq. by rewrite Hq.
    + cbn [contains] in Hp. by rewrite Hq in Hp.
  - intros [Hp|Hc]%orb_true_iff.
    + apply prefix_app_contains in Hp.
      cbn [contains] in Hp. apply orb_true_iff in Hp as [Hp|Hp].
      * apply prefix_app_l in Hp. by rewrite Hp.
      * clear IH. apply orb_true_iff. right.
        induction s as [|d' s IH]; cbn [contains] in *.
        -- rewrite orb_false_r in *. by apply prefix_app_l in Hp.
        -- apply orb_true_iff in Hp as [Hp|Hp].
           ++ apply prefix_app_l in Hp. by rewrite Hp.
           ++ rewrite (IH Hp). apply orb_true_r.
    + rewrite (IH Hc). apply orb_true_r.
Qed.

End substrings.

(** X29: a version that sync-fleet-releases.py takes for a dev version
    ("-rc.", "-beta." or "-alpha." in its lower case) has, in lower case, a
    marker of [DEV_VERSION_PATTERN]; the converse fails: ["1.0.0-rc1"] is a
    dev version for the pattern and a stable one for sync-fleet-releases.py. *)
Theorem sync_fleet_is_dev_weaker_than_pattern :
  (∀ v, SyncFleetReleases.is_dev v = true → class_of (Str.lower v) = Dev)
  ∧ class_of "1.0.0-rc1" = Dev
  ∧ SyncFleetReleases.is_dev "1.0.0-rc1" = false.
Proof.
  split; [|done]. intros v. unfold SyncFleetReleases.is_dev. cbn [existsb].
  rewrite orb_false_r. intros Hdev. apply class_of_Dev.
  unfold Str.DEV_VERSION_PATTERN_search.
  apply orb_true_iff in Hdev as [Hrc|Hrest].
  - rewrite (contains_middle "-" "rc" "." _ Hrc). done.
  - apply orb_true_iff in Hrest as [Hbeta|Halpha].
    + rewrite (contains_middle "-" "beta" "." _ Hbeta). apply orb_true_iff.
      left. apply orb_true_r.
    + rewrite (contains_middle "-" "alpha" "." _ Halpha). apply orb_true_r.
Qed.

(** X30: [should_include_version] never includes a version of the index
    or a dev version older than 14 days, always includes a version that is
    not a dev version and not in the index, and includes no more when the
    index grows. *)
Theorem should_include_version_rules (now : datetime) (v : string)
    (published : datetime) (existing existing' : gset string) :
  (SyncFleetReleases.should_include_version now v published existing = true →
   v ∉ existing
   ∧ (SyncFleetReleases.is_dev v = true →
      now - published ≤ timedelta_days SyncFleetReleases.DEV_VERSION_MAX_AGE_DAYS))
  ∧ (v ∉ existing → SyncFleetReleases.is_dev v = false →
     SyncFleetReleases.should_include_version now v published existing = true)
  ∧ (existing ⊆ existing' →
     SyncFleetReleases.should_include_version now v published existing' = true →
     SyncFleetReleases.should_include_version now v published existing = true).
Proof.
  unfold SyncFleetReleases.should_include_version. cbv zeta.
  split; [|split].
  - case_bool_decide as Hex; [done|]. intros Hinc. split; [done|].
    intros Hdev. rewrite Hdev in Hinc. cbn [negb] in Hinc.
    destruct (timedelta_days SyncFleetReleases.DEV_VERSION_MAX_AGE_DAYS
              <? now - published) eqn:Hage; [done|].
    by apply Z.ltb_ge in Hage.
  - intros Hex Hdev. rewrite bool_decide_eq_false_2 by done. by rewrite Hdev.
  - intros Hsub.
    case_bool_decide as Hex'; [done|].
    rewrite (bool_decide_eq_false_2 (v ∈ existing))
      by (intros Hin; apply Hex'; by apply Hsub).
    destruct (negb (SyncFleetReleases.is_dev v)); [done|].
    destruct (_ <? _); [done|].
    destruct (3 <=? _)%nat; [|done].
    intros Hbase%bool_decide_eq_true. apply bool_decide_eq_true.
    intros Hin. apply Hbase. by apply Hsub.
Qed.
